(** * Yuanjian: the Tencent Meeting client, the Group model and the group-name
    formatter, embedded in Rocq.

    Sources embedded here:
    - [src/api/TencentMeeting.ts]: [sign], [tmRequest], [createMeeting],
      [getMeeting], [listRecords], [getRecordURLs] and the three error
      constructors;
    - [src/api/database/models/Group.ts]: the [cascadeDestroy] hook;
    - [formatGroupName].

    Conventions.  A JavaScript string is represented by the bytes of its UTF-8
    encoding (a Rocq [string]); template literals and [+] on strings are
    [append].  The numbers the client handles (seconds, page numbers, nonces,
    status codes) are integers and are represented in [Z].  Effects (the
    clock, the random source, the HTTP calls and the reports to the monitoring
    service) are threaded explicitly through a runtime state; [console.log]
    is not modelled. *)

From Stdlib Require Import ZArith List String Ascii Bool Lia.
From Stdlib Require Import DecimalString DecimalZ.
Import ListNotations.
Set Warnings "-register-all".
Local Open Scope list_scope.
Local Open Scope string_scope.
Local Open Scope Z_scope.

(* ================================================================== *)
(** ** Text and bytes *)

Module Text.

(** The conversion JavaScript applies to an integer inside a template
    literal, [String(n)] and [JSON.stringify(n)]: decimal digits, with a
    leading minus sign for negative numbers. *)
Definition decimal (n : Z) : string :=
  NilZero.string_of_int (Z.to_int n).

Definition bytes_of_string (s : string) : list Z :=
  map (fun c => Z.of_N (N_of_ascii c)) (list_ascii_of_string s).

Definition string_of_bytes (l : list Z) : string :=
  string_of_list_ascii (map (fun b => ascii_of_N (Z.to_N b)) l).

Definition hex_digit (upper : bool) (d : Z) : ascii :=
  if d <? 10 then ascii_of_N (Z.to_N (48 + d))
  else ascii_of_N (Z.to_N ((if upper then 55 else 87) + d)).

(** Two hexadecimal digits of one byte. *)
Definition hex_byte (upper : bool) (b : Z) : string :=
  String (hex_digit upper (b / 16)) (String (hex_digit upper (b mod 16)) "").

(** [Buffer.toString('hex')]: lower-case digits, two per byte. *)
Definition hex (l : list Z) : string :=
  concat "" (map (hex_byte false) l).

Definition base64_alphabet : string :=
  "ABCDEFGHIJKLMNOPQRSTUVWXYZabcdefghijklmnopqrstuvwxyz0123456789+/".

Definition base64_char (i : Z) : ascii :=
  match get (Z.to_nat i) base64_alphabet with
  | Some c => c
  | None => "="%char
  end.

(** [Buffer.toString('base64')]: the standard alphabet, with [=] padding. *)
Fixpoint base64 (l : list Z) : string :=
  match l with
  | [] => ""
  | [a] =>
      String (base64_char (a / 4))
        (String (base64_char ((a mod 4) * 16)) "==")
  | [a; b] =>
      String (base64_char (a / 4))
        (String (base64_char ((a mod 4) * 16 + b / 16))
           (String (base64_char ((b mod 16) * 4)) "="))
  | a :: b :: c :: rest =>
      String (base64_char (a / 4))
        (String (base64_char ((a mod 4) * 16 + b / 16))
           (String (base64_char ((b mod 16) * 4 + c / 64))
              (String (base64_char (c mod 64)) (base64 rest))))
  end.

End Text.

(* ================================================================== *)
(** ** SHA-256 and HMAC, as [crypto.createHmac('sha256', key)] computes them

    FIPS 180-4 and RFC 2104.  A word is an integer in [0, 2^32). *)

Module Sha256.

Definition wrap32 (x : Z) : Z := x mod 4294967296.
Definition add32 (x y : Z) : Z := wrap32 (x + y).
Definition not32 (x : Z) : Z := Z.lxor x 4294967295.
Definition rotr (n x : Z) : Z :=
  Z.lor (Z.shiftr x n) (wrap32 (Z.shiftl x (32 - n))).

Definition choose (x y z : Z) : Z :=
  Z.lxor (Z.land x y) (Z.land (not32 x) z).
Definition majority (x y z : Z) : Z :=
  Z.lxor (Z.lxor (Z.land x y) (Z.land x z)) (Z.land y z).
Definition big_sigma0 (x : Z) : Z :=
  Z.lxor (Z.lxor (rotr 2 x) (rotr 13 x)) (rotr 22 x).
Definition big_sigma1 (x : Z) : Z :=
  Z.lxor (Z.lxor (rotr 6 x) (rotr 11 x)) (rotr 25 x).
Definition small_sigma0 (x : Z) : Z :=
  Z.lxor (Z.lxor (rotr 7 x) (rotr 18 x)) (Z.shiftr x 3).
Definition small_sigma1 (x : Z) : Z :=
  Z.lxor (Z.lxor (rotr 17 x) (rotr 19 x)) (Z.shiftr x 10).

(** The constants are the first 32 bits of the fractional parts of the
    square roots (initial hash value) and cube roots (round constants) of
    the first primes. *)
Definition first_primes : list Z :=
  [2; 3; 5; 7; 11; 13; 17; 19; 23; 29; 31; 37; 41; 43; 47; 53;
   59; 61; 67; 71; 73; 79; 83; 89; 97; 101; 103; 107; 109; 113; 127; 131;
   137; 139; 149; 151; 157; 163; 167; 173; 179; 181; 191; 193; 197; 199;
   211; 223; 227; 229; 233; 239; 241; 251; 257; 263; 269; 271; 277; 281;
   283; 293; 307; 311].

Fixpoint cube_root_bits (bits : nat) (n r : Z) : Z :=
  match bits with
  | O => r
  | S b =>
      let c := r + 2 ^ Z.of_nat b in
      if c * c * c <=? n then cube_root_bits b n c else cube_root_bits b n r
  end.

Definition round_constants : list Z :=
  Eval vm_compute in
    map (fun p => wrap32 (cube_root_bits 36 (p * 2 ^ 96) 0)) first_primes.

(** The eight working variables, also used for a hash value. *)
Record regs : Type := Regs {
  ra : Z; rb : Z; rc : Z; rd : Z; re : Z; rf : Z; rg : Z; rh : Z
}.

Definition initial_hash : regs :=
  Eval vm_compute in
    let h := fun p => wrap32 (Z.sqrt (p * 2 ^ 64)) in
    Regs (h 2) (h 3) (h 5) (h 7) (h 11) (h 13) (h 17) (h 19).

Definition add_regs (x y : regs) : regs :=
  Regs (add32 (ra x) (ra y)) (add32 (rb x) (rb y))
       (add32 (rc x) (rc y)) (add32 (rd x) (rd y))
       (add32 (re x) (re y)) (add32 (rf x) (rf y))
       (add32 (rg x) (rg y)) (add32 (rh x) (rh y)).

(** Message schedule, newest word first: from the sixteen words of a block
    to the sixty-four words of the rounds. *)
Fixpoint schedule (n : nat) (rw : list Z) : list Z :=
  match n with
  | O => rw
  | S n' =>
      let w := add32 (add32 (small_sigma1 (nth 1 rw 0)) (nth 6 rw 0))
                     (add32 (small_sigma0 (nth 14 rw 0)) (nth 15 rw 0)) in
      schedule n' (w :: rw)
  end.

Definition round (s : regs) (kw : Z * Z) : regs :=
  let t1 := add32 (add32 (add32 (rh s) (big_sigma1 (re s)))
                         (add32 (choose (re s) (rf s) (rg s)) (fst kw)))
                  (snd kw) in
  let t2 := add32 (big_sigma0 (ra s)) (majority (ra s) (rb s) (rc s)) in
  Regs (add32 t1 t2) (ra s) (rb s) (rc s) (add32 (rd s) t1)
       (re s) (rf s) (rg s).

Definition compress (h : regs) (block : list Z) : regs :=
  let w := rev (schedule 48 (rev block)) in
  add_regs h (fold_left round (combine round_constants w) h).

(** [n]-byte big-endian representation. *)
Fixpoint be_bytes (n : nat) (x : Z) : list Z :=
  match n with
  | O => []
  | S n' => (x / 256 ^ Z.of_nat n') mod 256 :: be_bytes n' x
  end.

Definition be_word (bs : list Z) : Z :=
  fold_left (fun acc b => acc * 256 + b) bs 0.

Fixpoint chunks_fuel {A} (fuel k : nat) (l : list A) : list (list A) :=
  match fuel with
  | O => []
  | S f =>
      match l with
      | [] => []
      | _ => firstn k l :: chunks_fuel f k (skipn k l)
      end
  end.

Definition chunks {A} (k : nat) (l : list A) : list (list A) :=
  chunks_fuel (List.length l) k l.

Definition pad (msg : list Z) : list Z :=
  let len := Z.of_nat (List.length msg) in
  msg ++ 128 :: repeat 0 (Z.to_nat ((55 - len) mod 64)) ++ be_bytes 8 (8 * len).

Definition hash_regs (msg : list Z) : regs :=
  fold_left compress (chunks 16 (map be_word (chunks 4 (pad msg))))
            initial_hash.

Definition regs_bytes (h : regs) : list Z :=
  be_bytes 4 (ra h) ++ be_bytes 4 (rb h) ++ be_bytes 4 (rc h)
  ++ be_bytes 4 (rd h) ++ be_bytes 4 (re h) ++ be_bytes 4 (rf h)
  ++ be_bytes 4 (rg h) ++ be_bytes 4 (rh h).

Definition sha256 (msg : list Z) : list Z := regs_bytes (hash_regs msg).

(** RFC 2104 with a 64-byte block. *)
Definition hmac_key_block (key : list Z) : list Z :=
  let k := if (64 <? Z.of_nat (List.length key)) then sha256 key else key in
  k ++ repeat 0 (64 - List.length k)%nat.

Definition hmac_regs (key msg : list Z) : regs :=
  let kb := hmac_key_block key in
  hash_regs (map (Z.lxor 92) kb ++ sha256 (map (Z.lxor 54) kb ++ msg)).

Definition hmac_sha256 (key msg : list Z) : list Z :=
  regs_bytes (hmac_regs key msg).

End Sha256.

(* ================================================================== *)
(** ** JavaScript values, [JSON.stringify] and [qs.stringify] *)

Module Js.

Inductive value : Type :=
| Undefined
| Null
| Bool (b : bool)
| Num (n : Z)
| Str (s : string)
| Arr (items : list value)
| Obj (fields : list (string * value)).

Definition newline : string := String (ascii_of_nat 10) "".
Definition dquote : string := String (ascii_of_nat 34) "".

Fixpoint lookup {A} (k : string) (fields : list (string * A)) : option A :=
  match fields with
  | [] => None
  | (k', v) :: rest => if String.eqb k k' then Some v else lookup k rest
  end.

(** [v.k] for a value that is neither [null] nor [undefined]: a missing
    property reads as [undefined]. *)
Definition prop (v : value) (k : string) : value :=
  match v with
  | Obj fields =>
      match lookup k fields with
      | Some x => x
      | None => Undefined
      end
  | _ => Undefined
  end.

(** [a[i]]: out of range reads as [undefined]. *)
Definition index (v : value) (i : nat) : value :=
  match v with
  | Arr items => nth i items Undefined
  | _ => Undefined
  end.

Definition nullish (v : value) : bool :=
  match v with
  | Undefined | Null => true
  | _ => false
  end.

Definition truthy (v : value) : bool :=
  match v with
  | Undefined | Null => false
  | Bool b => b
  | Num n => negb (n =? 0)
  | Str s => negb (String.eqb s "")
  | Arr _ | Obj _ => true
  end.

(** [String(v)], the conversion of a template literal. *)
Fixpoint to_string (v : value) : string :=
  match v with
  | Undefined => "undefined"
  | Null => "null"
  | Bool true => "true"
  | Bool false => "false"
  | Num n => Text.decimal n
  | Str s => s
  | Arr items =>
      concat ","
        (map (fun x => if nullish x then "" else to_string x) items)
  | Obj _ => "[object Object]"
  end.

Definition escape_char (c : ascii) : string :=
  let n := Z.of_N (N_of_ascii c) in
  if n =? 34 then "\" ++ dquote
  else if n =? 92 then "\\"
  else if n =? 8 then "\b"
  else if n =? 12 then "\f"
  else if n =? 10 then "\n"
  else if n =? 13 then "\r"
  else if n =? 9 then "\t"
  else if n <? 32 then "\u00" ++ Text.hex_byte false n
  else String c "".

Fixpoint escape (s : string) : string :=
  match s with
  | EmptyString => ""
  | String c rest => escape_char c ++ escape rest
  end.

Definition quote (s : string) : string :=
  dquote ++ escape s ++ dquote.

(** Text of a value inside [JSON.stringify]: [undefined] prints as [null]
    in an array and is left out of an object. *)
Fixpoint json (v : value) : string :=
  match v with
  | Undefined | Null => "null"
  | Bool true => "true"
  | Bool false => "false"
  | Num n => Text.decimal n
  | Str s => quote s
  | Arr items => "[" ++ concat "," (map json items) ++ "]"
  | Obj fields =>
      "{" ++ concat ","
        ((fix members (fs : list (string * value)) : list string :=
            match fs with
            | [] => []
            | (_, Undefined) :: rest => members rest
            | (k, x) :: rest => (quote k ++ ":" ++ json x)%string :: members rest
            end) fields) ++ "}"
  end.

(** [JSON.stringify(v)]; [None] stands for the result [undefined]. *)
Definition JSON_stringify (v : value) : option string :=
  match v with
  | Undefined => None
  | _ => Some (json v)
  end.

Definition obj_of_strings (fields : list (string * string)) : value :=
  Obj (map (fun kv => (fst kv, Str (snd kv))) fields).

(** A value of type [string | number]. *)
Inductive scalar : Type :=
| SStr (s : string)
| SNum (n : Z).

Definition scalar_string (x : scalar) : string :=
  match x with
  | SStr s => s
  | SNum n => Text.decimal n
  end.

(** The default encoder of [qs]: letters, digits and [-._~] are kept,
    every other byte becomes [%XX]. *)
Definition qs_unreserved (n : Z) : bool :=
  (n =? 45) || (n =? 46) || (n =? 95) || (n =? 126)
  || ((48 <=? n) && (n <=? 57))
  || ((65 <=? n) && (n <=? 90))
  || ((97 <=? n) && (n <=? 122)).

Fixpoint qs_encode (s : string) : string :=
  match s with
  | EmptyString => ""
  | String c rest =>
      let n := Z.of_N (N_of_ascii c) in
      (if qs_unreserved n then String c ""
       else "%" ++ Text.hex_byte true n) ++ qs_encode rest
  end.

(** [qs.stringify(query)] for a flat record, keys in insertion order. *)
Definition qs_stringify (query : list (string * scalar)) : string :=
  concat "&"
    (map (fun kv =>
            (qs_encode (fst kv) ++ "=" ++ qs_encode (scalar_string (snd kv)))%string)
         query).

End Js.

(* ================================================================== *)
(** ** The [zod] schemas the client uses *)

Module Zod.

Inductive schema : Type :=
| ZString
| ZUrl
| ZNumber
| ZBoolean
| ZArray (item : schema)
| ZObject (shape : list (string * schema))
| ZOptional (inner : schema).

(** [schema.parse(v)]: [None] stands for the thrown [ZodError].  An object
    schema keeps the keys of its shape only; a key is written to the result
    when the input has it or when its parsed value is not [undefined]. *)
Fixpoint parse (valid_url : string -> bool) (s : schema) (v : Js.value)
  : option Js.value :=
  match s with
  | ZString => match v with Js.Str _ => Some v | _ => None end
  | ZUrl =>
      match v with
      | Js.Str u => if valid_url u then Some v else None
      | _ => None
      end
  | ZNumber => match v with Js.Num _ => Some v | _ => None end
  | ZBoolean => match v with Js.Bool _ => Some v | _ => None end
  | ZArray item =>
      match v with
      | Js.Arr items =>
          option_map Js.Arr
            ((fix each (l : list Js.value) : option (list Js.value) :=
                match l with
                | [] => Some []
                | x :: rest =>
                    match parse valid_url item x, each rest with
                    | Some y, Some ys => Some (y :: ys)
                    | _, _ => None
                    end
                end) items)
      | _ => None
      end
  | ZObject shape =>
      match v with
      | Js.Obj fields =>
          option_map Js.Obj
            ((fix each (sh : list (string * schema))
                : option (list (string * Js.value)) :=
                match sh with
                | [] => Some []
                | (k, fs) :: rest =>
                    let raw := Js.lookup k fields in
                    match parse valid_url fs
                            (match raw with Some x => x | None => Js.Undefined end),
                          each rest with
                    | Some y, Some ys =>
                        match raw, y with
                        | None, Js.Undefined => Some ys
                        | _, _ => Some ((k, y) :: ys)
                        end
                    | _, _ => None
                    end
                end) shape)
      | _ => None
      end
  | ZOptional inner =>
      match v with
      | Js.Undefined => Some Js.Undefined
      | _ => parse valid_url inner v
      end
  end.

End Zod.

(* ================================================================== *)
(** ** [src/api/TencentMeeting.ts] *)

Module TencentMeeting.

(** [apiEnv]: the four settings the client reads. *)
Record ApiEnv : Type := {
  TM_SECRET_ID : string;
  TM_SECRET_KEY : string;
  TM_ENTERPRISE_ID : string;
  TM_APP_ID : string
}.

Inductive Method : Type := POST | GET.

Definition method_name (m : Method) : string :=
  match m with
  | POST => "POST"
  | GET => "GET"
  end.

Inductive ErrorCode : Type := BAD_REQUEST | NOT_FOUND | METHOD_NOT_SUPPORTED.

(** The options a [TRPCError] is built from. *)
Record TRPCError : Type := {
  code : ErrorCode;
  message : string;
  cause : Js.value
}.

(** What a [throw] carries. *)
Inductive thrown : Type :=
| Trpc (e : TRPCError)
| ZodError
| TypeError
| Rejected (reason : Js.value).

(** The request configuration handed to [axios]; [cfg_data] is the request
    body, [Js.Undefined] when the configuration has no [data] entry. *)
Record AxiosConfig : Type := {
  cfg_method : Method;
  cfg_url : string;
  cfg_headers : list (string * string);
  cfg_data : Js.value
}.

Inductive Outcome : Type :=
| Resolved (response : Js.value)
| Failed (reason : Js.value).

(** The surroundings of a call: the settings, the value of the [k]-th read
    of [Date.now()] (milliseconds), the value of the [k]-th evaluation of
    [Math.floor(Math.random() * 100000)], the outcome of the [k]-th HTTP
    call, and the URL test of [z.string().url()]. *)
Record World : Type := {
  apiEnv : ApiEnv;
  Date_now : nat -> Z;
  random_nonce : nat -> Z;
  axios : nat -> AxiosConfig -> Outcome;
  valid_url : string -> bool
}.

Record Runtime : Type := {
  clock_reads : nat;
  random_reads : nat;
  requests : list AxiosConfig;
  captured : list thrown
}.

Definition fresh_runtime : Runtime :=
  {| clock_reads := 0; random_reads := 0; requests := []; captured := [] |}.

Inductive result (A : Type) : Type :=
| Ok (a : A)
| Throw (e : thrown).
Arguments Ok {A} a.
Arguments Throw {A} e.

Definition M (A : Type) : Type := Runtime -> result A * Runtime.

Definition ret {A} (a : A) : M A := fun rt => (Ok a, rt).

Definition throw {A} (e : thrown) : M A := fun rt => (Throw e, rt).

Definition bind {A B} (c : M A) (k : A -> M B) : M B :=
  fun rt =>
    match c rt with
    | (Ok a, rt') => k a rt'
    | (Throw e, rt') => (Throw e, rt')
    end.

Definition try_catch {A} (body : M A) (handler : thrown -> M A) : M A :=
  fun rt =>
    match body rt with
    | (Ok a, rt') => (Ok a, rt')
    | (Throw e, rt') => handler e rt'
    end.

Declare Scope client_scope.
Delimit Scope client_scope with client.
Notation "x <- c ;; k" := (bind c (fun x => k))
  (at level 61, c at next level, right associativity) : client_scope.
Notation "c ;;; k" := (bind c (fun _ => k))
  (at level 61, right associativity) : client_scope.
Local Open Scope client_scope.

(** [Date.now()]. *)
Definition read_clock (w : World) : M Z :=
  fun rt =>
    (Ok (Date_now w (clock_reads rt)),
     {| clock_reads := S (clock_reads rt); random_reads := random_reads rt;
        requests := requests rt; captured := captured rt |}).

(** [Math.floor(Math.random() * 100000)]. *)
Definition draw_nonce (w : World) : M Z :=
  fun rt =>
    (Ok (random_nonce w (random_reads rt)),
     {| clock_reads := clock_reads rt; random_reads := S (random_reads rt);
        requests := requests rt; captured := captured rt |}).

(** [await axios(cfg)]: the call is recorded; a rejection is a [throw]. *)
Definition await_axios (w : World) (cfg : AxiosConfig) : M Js.value :=
  fun rt =>
    let rt' := {| clock_reads := clock_reads rt; random_reads := random_reads rt;
                  requests := requests rt ++ [cfg]; captured := captured rt |} in
    match axios w (List.length (requests rt)) cfg with
    | Resolved response => (Ok response, rt')
    | Failed reason => (Throw (Rejected reason), rt')
    end.

(** [Sentry.captureException(e)]. *)
Definition captureException (e : thrown) : M unit :=
  fun rt =>
    (Ok tt,
     {| clock_reads := clock_reads rt; random_reads := random_reads rt;
        requests := requests rt; captured := captured rt ++ [e] |}).

(** [v.k], which throws a [TypeError] when [v] is [null] or [undefined]. *)
Definition read_prop (v : Js.value) (k : string) : M Js.value :=
  if Js.nullish v then throw TypeError else ret (Js.prop v k).

(** [zRes.parse(v)]. *)
Definition zparse (w : World) (s : Zod.schema) (v : Js.value) : M Js.value :=
  match Zod.parse (valid_url w) s v with
  | Some r => ret r
  | None => throw ZodError
  end.

(** The text [sign] feeds to the keyed hash (its local [tobeSigned]). *)
Definition tobeSigned (secretId httpMethod : string)
    (headerNonce headerTimestamp : Z) (requestUri requestBody : string)
  : string :=
  (httpMethod ++ Js.newline ++ "X-TC-Key=" ++ secretId
   ++ "&X-TC-Nonce=" ++ Text.decimal headerNonce
   ++ "&X-TC-Timestamp=" ++ Text.decimal headerTimestamp)
  ++ (Js.newline ++ requestUri ++ Js.newline ++ requestBody).

Definition sign (secretId secretKey httpMethod : string)
    (headerNonce headerTimestamp : Z) (requestUri requestBody : string)
  : string :=
  let signature :=
    Text.hex (Sha256.hmac_sha256 (Text.bytes_of_string secretKey)
                (Text.bytes_of_string
                   (tobeSigned secretId httpMethod headerNonce headerTimestamp
                               requestUri requestBody))) in
  Text.base64 (Text.bytes_of_string signature).

Definition paginationNotSupported : TRPCError :=
  {| code := METHOD_NOT_SUPPORTED;
     message := "Pagination isn't supported";
     cause := Js.Undefined |}.

Definition failedRequest (statusCode data : Js.value) : TRPCError :=
  {| code := BAD_REQUEST;
     message := "Tencent Meeting Rest API request failed, status Code:"
                ++ Js.to_string statusCode;
     cause := data |}.

Definition undefinedResponse : TRPCError :=
  {| code := NOT_FOUND;
     message := "Response data is undefined";
     cause := Js.Str "check validties of Tencent Meeting API inputs" |}.

Definition option_string_eqb (a : option string) (b : string) : bool :=
  match a with
  | Some s => String.eqb s b
  | None => false
  end.

(** The [catch] block of [tmRequest].  Of the values that can be thrown,
    only the one [axios] rejected with can carry a [response]. *)
Definition tmRequest_catch (error : thrown) : M Js.value :=
  match error with
  | Rejected reason =>
      response <- read_prop reason "response" ;;
      if Js.truthy response then
        let e := Trpc (failedRequest (Js.prop response "status")
                                     (Js.prop reason "data")) in
        captureException e ;;;
        throw e
      else
        captureException error ;;;
        throw error
  | _ =>
      captureException error ;;;
      throw error
  end.

Definition tmRequest (w : World) (method : Method) (requestUri : string)
    (query : list (string * Js.scalar)) (body : list (string * string))
  : M Js.value :=
  ms <- read_clock w ;;
  let now := ms / 1000 in
  let hasQuery := (0 <? List.length query)%nat in
  let pathWithQuery :=
    requestUri ++ (if hasQuery then "?" ++ Js.qs_stringify query else "") in
  let url := "https://api.meeting.qq.com" ++ pathWithQuery in
  nonce <- draw_nonce w ;;
  let bodyText :=
    match method with
    | GET => ""
    | POST => Js.json (Js.obj_of_strings body)
    end in
  let signature :=
    sign (TM_SECRET_ID (apiEnv w)) (TM_SECRET_KEY (apiEnv w))
         (method_name method) nonce now pathWithQuery bodyText in
  let headers :=
    [ ("Content-Type", "application/json");
      ("X-TC-Key", TM_SECRET_ID (apiEnv w));
      ("AppId", TM_ENTERPRISE_ID (apiEnv w));
      ("SdkId", TM_APP_ID (apiEnv w));
      ("X-TC-Timestamp", "" ++ Text.decimal now);
      ("X-TC-Nonce", "" ++ Text.decimal nonce);
      ("X-TC-Signature", signature);
      ("X-TC-Registered", "1") ] in
  try_catch
    (response <- await_axios w {| cfg_method := method; cfg_url := url;
                                  cfg_headers := headers;
                                  cfg_data := Js.Undefined |} ;;
     data <- read_prop response "data" ;;
     if option_string_eqb (Js.JSON_stringify data) "{}" then
       let error := Trpc undefinedResponse in
       captureException error ;;;
       throw error
     else ret data)
    tmRequest_catch.

Definition zCreateMeetingRes : Zod.schema :=
  Zod.ZObject
    [ ("meeting_number", Zod.ZNumber);
      ("meeting_info_list", Zod.ZArray (Zod.ZObject
         [ ("subject", Zod.ZString);
           ("meeting_id", Zod.ZString);
           ("meeting_code", Zod.ZString);
           ("type", Zod.ZNumber);
           ("join_url", Zod.ZUrl);
           ("hosts", Zod.ZArray (Zod.ZObject [ ("userid", Zod.ZString) ]));
           ("start_time", Zod.ZString);
           ("end_time", Zod.ZString);
           ("settings", Zod.ZObject
              [ ("mute_enable_join", Zod.ZBoolean);
                ("allow_unmute_self", Zod.ZBoolean);
                ("mute_all", Zod.ZBoolean);
                ("mute_enable_type_join", Zod.ZNumber) ]);
           ("meeting_type", Zod.ZNumber);
           ("enable_live", Zod.ZBoolean);
           ("media_set_type", Zod.ZNumber);
           ("location", Zod.ZString);
           ("host_key", Zod.ZOptional Zod.ZString) ])) ].

Definition createMeeting (w : World) (tmUserId subject : string)
    (startTimeSecond endTimeSecond : Z) : M Js.value :=
  res <- tmRequest w POST "/v1/meetings" []
           [ ("userid", tmUserId);
             ("instanceid", "1");
             ("subject", subject);
             ("start_time", "" ++ Text.decimal startTimeSecond);
             ("end_time", "" ++ Text.decimal endTimeSecond);
             ("type", "0") ] ;;
  zparse w zCreateMeetingRes res.

Definition zGetMeetingRes : Zod.schema :=
  Zod.ZObject
    [ ("meeting_number", Zod.ZNumber);
      ("meeting_info_list", Zod.ZArray (Zod.ZObject
         [ ("subject", Zod.ZString);
           ("meeting_id", Zod.ZString);
           ("meeting_code", Zod.ZString);
           ("status", Zod.ZString);
           ("join_url", Zod.ZString);
           ("start_time", Zod.ZString);
           ("end_time", Zod.ZString) ])) ].

Definition getMeeting (w : World) (meetingId tmUserId : string) : M Js.value :=
  raw <- tmRequest w GET ("/v1/meetings/" ++ meetingId)
           [ ("userid", Js.SStr tmUserId); ("instanceid", Js.SStr "1") ] [] ;;
  res <- zparse w zGetMeetingRes raw ;;
  ret (Js.index (Js.prop res "meeting_info_list") 0).

Definition zRecordMeetings : Zod.schema :=
  Zod.ZObject
    [ ("meeting_record_id", Zod.ZString);
      ("subject", Zod.ZString);
      ("state", Zod.ZNumber);
      ("record_files", Zod.ZOptional (Zod.ZArray (Zod.ZObject
         [ ("record_file_id", Zod.ZString);
           ("record_start_time", Zod.ZNumber);
           ("record_end_time", Zod.ZNumber) ]))) ].

Definition zListRecordsRes : Zod.schema :=
  Zod.ZObject
    [ ("total_count", Zod.ZNumber);
      ("total_page", Zod.ZNumber);
      ("record_meetings", Zod.ZOptional (Zod.ZArray zRecordMeetings)) ].

(** [Math.trunc(ms / 1000 - 31 * 24 * 3600)] and [Math.trunc(ms / 1000)]
    for an integer [ms]: rounding is towards zero. *)
Definition lookback_start (ms : Z) : Z :=
  Z.quot (ms - 1000 * (31 * 24 * 3600)) 1000.

Definition seconds_of (ms : Z) : Z := Z.quot ms 1000.

(** [ret.concat(x)]: an array argument is spread, any other is appended. *)
Definition array_concat (acc : list Js.value) (x : Js.value) : list Js.value :=
  match x with
  | Js.Arr items => acc ++ items
  | _ => acc ++ [x]
  end.

(** [page >= v] and [v != 1] for a value the schema makes a number. *)
Definition number_of (v : Js.value) : Z :=
  match v with
  | Js.Num n => n
  | _ => 0
  end.

Definition records_query (tmUserId : string) (t1 t2 page : Z)
  : list (string * Js.scalar) :=
  [ ("userid", Js.SStr tmUserId);
    ("start_time", Js.SStr (Text.decimal (lookback_start t1)));
    ("end_time", Js.SStr (Text.decimal (seconds_of t2)));
    ("page_size", Js.SNum 20);
    ("page", Js.SNum page) ].

(** The [while (true)] loop of [listRecords]; [fuel] bounds the number of
    iterations and [None] is returned when it runs out. *)
Fixpoint listRecords_loop (fuel : nat) (w : World) (tmUserId : string)
    (acc : list Js.value) (page : Z) : M (option (list Js.value)) :=
  match fuel with
  | O => ret None
  | S fuel' =>
      t1 <- read_clock w ;;
      t2 <- read_clock w ;;
      raw <- tmRequest w GET "/v1/records"
               (records_query tmUserId t1 t2 page) [] ;;
      res <- zparse w zListRecordsRes raw ;;
      let found := Js.prop res "record_meetings" in
      let acc' := array_concat acc (if Js.truthy found then found else Js.Arr []) in
      if number_of (Js.prop res "total_page") <=? page then ret (Some acc')
      else listRecords_loop fuel' w tmUserId acc' (page + 1)
  end.

Definition listRecords (fuel : nat) (w : World) (tmUserId : string)
  : M (option (list Js.value)) :=
  listRecords_loop fuel w tmUserId [] 1.

Definition zRecordURLsRes : Zod.schema :=
  Zod.ZObject
    [ ("total_page", Zod.ZNumber);
      ("record_files", Zod.ZArray (Zod.ZObject
         [ ("record_file_id", Zod.ZString);
           ("meeting_summary", Zod.ZOptional (Zod.ZArray (Zod.ZObject
              [ ("download_address", Zod.ZUrl);
                ("file_type", Zod.ZString) ]))) ])) ].

Definition getRecordURLs (w : World) (meetingRecordId tmUserId : string)
  : M Js.value :=
  raw <- tmRequest w GET "/v1/addresses"
           [ ("meeting_record_id", Js.SStr meetingRecordId);
             ("userid", Js.SStr tmUserId) ] [] ;;
  res <- zparse w zRecordURLsRes raw ;;
  if number_of (Js.prop res "total_page") =? 1 then ret res
  else throw (Trpc paginationNotSupported).

End TencentMeeting.

(* ================================================================== *)
(** ** [sign] on JavaScript strings

    Above, a string stands for the bytes of its UTF-8 encoding.  A
    JavaScript string is a sequence of UTF-16 code units, and it is
    [createHmac(_, key)] and [update(text)] that encode it in UTF-8, as
    [Buffer.from(text, 'utf8')] does: a surrogate pair becomes the four
    bytes of its code point, and a surrogate that is not part of a pair
    becomes the three bytes of U+FFFD.  Here that step is written out.  A
    code unit is an integer in [0, 2^16). *)

Module Utf16.

Definition is_high (u : Z) : bool := (55296 <=? u) && (u <=? 56319).
Definition is_low (u : Z) : bool := (56320 <=? u) && (u <=? 57343).

(** The code point of a surrogate pair. *)
Definition pair_point (high low : Z) : Z :=
  65536 + (high - 55296) * 1024 + (low - 56320).

Definition encode_point (p : Z) : string :=
  if p <? 128 then Text.string_of_bytes [p]
  else if p <? 2048 then
    Text.string_of_bytes [192 + p / 64; 128 + p mod 64]
  else if p <? 65536 then
    Text.string_of_bytes
      [224 + p / 4096; 128 + (p / 64) mod 64; 128 + p mod 64]
  else
    Text.string_of_bytes
      [240 + p / 262144; 128 + (p / 4096) mod 64; 128 + (p / 64) mod 64;
       128 + p mod 64].

(** U+FFFD, which the encoder writes for a surrogate that has no partner. *)
Definition replacement : string := Text.string_of_bytes [239; 191; 189].

(** The UTF-8 bytes Node writes for a string. *)
Fixpoint utf8 (s : list Z) : string :=
  match s with
  | [] => ""
  | u :: rest =>
      if is_high u then
        match rest with
        | v :: rest' =>
            if is_low v then encode_point (pair_point u v) ++ utf8 rest'
            else replacement ++ utf8 rest
        | [] => replacement
        end
      else if is_low u then replacement ++ utf8 rest
      else encode_point u ++ utf8 rest
  end.

(** The code units of a literal of the source, and of the digits of a
    number. *)
Definition units (s : string) : list Z := Text.bytes_of_string s.

(** No surrogate without its partner. *)
Fixpoint well_formed (s : list Z) : bool :=
  match s with
  | [] => true
  | u :: rest =>
      if is_high u then
        match rest with
        | v :: rest' => is_low v && well_formed rest'
        | [] => false
        end
      else (0 <=? u) && (u <? 65536) && negb (is_low u) && well_formed rest
  end.

Definition tobeSigned (secretId httpMethod : list Z)
    (headerNonce headerTimestamp : Z) (requestUri requestBody : list Z)
  : list Z :=
  ((httpMethod ++ units Js.newline ++ units "X-TC-Key=" ++ secretId
    ++ units "&X-TC-Nonce=" ++ units (Text.decimal headerNonce)
    ++ units "&X-TC-Timestamp=" ++ units (Text.decimal headerTimestamp))
   ++ (units Js.newline ++ requestUri ++ units Js.newline ++ requestBody))%list.

Definition sign (secretId secretKey httpMethod : list Z)
    (headerNonce headerTimestamp : Z) (requestUri requestBody : list Z)
  : string :=
  let signature :=
    Text.hex
      (Sha256.hmac_sha256
         (Text.bytes_of_string (utf8 secretKey))
         (Text.bytes_of_string
            (utf8 (tobeSigned secretId httpMethod headerNonce
                     headerTimestamp requestUri requestBody)))) in
  Text.base64 (Text.bytes_of_string signature).

End Utf16.

(* ================================================================== *)
(** ** [src/api/database/models/Group.ts] *)

Module Group.

Record GroupRow : Type := {
  id : string;
  name : option string;
  meetingLink : option string;
  partnershipId : option string
}.

(** A row of [group_users] or of [transcripts]: its primary key and the
    group it belongs to. *)
Record Dependent : Type := {
  key : string;
  groupId : string
}.

Record Database : Type := {
  groups : list GroupRow;
  groupUsers : list Dependent;
  transcripts : list Dependent
}.

(** [Model.findAll({ where: { groupId } })]. *)
Definition findAll (g : string) (rows : list Dependent) : list Dependent :=
  filter (fun r => String.eqb (groupId r) g) rows.

(** The effect of [instance.destroy()] on the table of the instance: the
    row with its primary key is gone. *)
Definition delete_row (k : string) (rows : list Dependent) : list Dependent :=
  filter (fun r => negb (String.eqb (key r) k)) rows.

(** A removal that has been issued and has not completed yet: the promise
    of [async gu => { await gu.destroy(options); }]. *)
Inductive removal : Type :=
| DestroyGroupUser (gu : Dependent)
| DestroyTranscript (t : Dependent).

Definition complete (r : removal) (db : Database) : Database :=
  match r with
  | DestroyGroupUser gu =>
      {| groups := groups db;
         groupUsers := delete_row (key gu) (groupUsers db);
         transcripts := transcripts db |}
  | DestroyTranscript t =>
      {| groups := groups db;
         groupUsers := groupUsers db;
         transcripts := delete_row (key t) (transcripts db) |}
  end.

(** Where [cascadeDestroy] is suspended. *)
Inductive point : Type :=
| AwaitGroupUsers
| AwaitTranscripts
| AwaitAll
| Returned.

Record hook : Type := {
  h_db : Database;
  h_at : point;
  h_inflight : list removal
}.

Definition cascadeDestroy_start (db : Database) : hook :=
  {| h_db := db; h_at := AwaitGroupUsers; h_inflight := [] |}.

(** The hook resumes: a [findAll] answers and [map] issues one removal per
    row found, or [Promise.all] resolves because nothing is in flight. *)
Definition resume (g : string) (h : hook) : option hook :=
  match h_at h with
  | AwaitGroupUsers =>
      Some {| h_db := h_db h; h_at := AwaitTranscripts;
              h_inflight := h_inflight h
                ++ map DestroyGroupUser (findAll g (groupUsers (h_db h))) |}
  | AwaitTranscripts =>
      Some {| h_db := h_db h; h_at := AwaitAll;
              h_inflight := h_inflight h
                ++ map DestroyTranscript (findAll g (transcripts (h_db h))) |}
  | AwaitAll =>
      match h_inflight h with
      | [] => Some {| h_db := h_db h; h_at := Returned; h_inflight := [] |}
      | _ :: _ => None
      end
  | Returned => None
  end.

Fixpoint drop_nth {A} (i : nat) (l : list A) : list A :=
  match l, i with
  | [], _ => []
  | _ :: rest, O => rest
  | x :: rest, S j => x :: drop_nth j rest
  end.

(** The [i]-th removal in flight completes. *)
Definition settle (i : nat) (h : hook) : option hook :=
  match nth_error (h_inflight h) i with
  | Some r =>
      Some {| h_db := complete r (h_db h); h_at := h_at h;
              h_inflight := drop_nth i (h_inflight h) |}
  | None => None
  end.

(** One turn of the event loop. *)
Inductive turn : Type :=
| Resume
| Settle (i : nat).

Definition step (g : string) (c : turn) (h : hook) : option hook :=
  match c with
  | Resume => resume g h
  | Settle i => settle i h
  end.

Fixpoint run (g : string) (schedule : list turn) (h : hook) : option hook :=
  match schedule with
  | [] => Some h
  | c :: rest =>
      match step g c h with
      | Some h' => run g rest h'
      | None => None
      end
  end.

(** The schedule that lets the removals complete in the order of issue. *)
Definition in_order (n : nat) : list turn :=
  Resume :: Resume :: repeat (Settle 0) n ++ [Resume].

(** [group.destroy()], turn by turn: the [BeforeDestroy] hook is awaited,
    and the turn that follows its return deletes the row of the group. *)
Definition remove_group (g : string) (db : Database) : Database :=
  {| groups := filter (fun r => negb (String.eqb (id r) g)) (groups db);
     groupUsers := groupUsers db;
     transcripts := transcripts db |}.

Inductive destroying : Type :=
| InHook (h : hook)
| Deleted (db : Database).

Definition database (s : destroying) : Database :=
  match s with
  | InHook h => h_db h
  | Deleted db => db
  end.

Definition destroy_start (db : Database) : destroying :=
  InHook (cascadeDestroy_start db).

Definition destroy_step (g : string) (c : turn) (s : destroying)
  : option destroying :=
  match s with
  | InHook h =>
      match h_at h, c with
      | Returned, Resume => Some (Deleted (remove_group g (h_db h)))
      | _, _ => option_map InHook (step g c h)
      end
  | Deleted _ => None
  end.

Fixpoint destroy_run (g : string) (schedule : list turn) (s : destroying)
  : option destroying :=
  match schedule with
  | [] => Some s
  | c :: rest =>
      match destroy_step g c s with
      | Some s' => destroy_run g rest s'
      | None => None
      end
  end.

Definition destroy (g : string) (schedule : list turn) (db : Database)
  : option Database :=
  match destroy_run g schedule (destroy_start db) with
  | Some (Deleted db') => Some db'
  | _ => None
  end.

End Group.

(* ================================================================== *)
(** ** [formatGroupName] *)

Module GroupName.

Definition one_on_one : string := "一对一通话".

Definition call_suffix : string := "人通话".

(** [encodeS] stands for [nzh.cn.encodeS], the Chinese numeral of a count. *)
Definition formatGroupName (encodeS : Z -> string) (name : option string)
    (userCount : Z) : string :=
  match name with
  | Some n => n
  | None =>
      if userCount <=? 2 then one_on_one
      else encodeS userCount ++ call_suffix
  end.

End GroupName.

(* ================================================================== *)
(** ** The sign-in handler: [generateVerificationToken] *)

Module Auth.

Definition tokenMaxAgeInMins : Z := 5.

(** [(await randomNumber(100000, 999999)).toString()], for the number
    [drawn] the random source resolves to. *)
Definition generateVerificationToken (drawn : Z) : string :=
  Text.decimal drawn.

End Auth.

(* ================================================================== *)
(** ** Vocabulary of the statements *)

Module Spec.

Import TencentMeeting.

(** The signing scheme in the words of the interface description: four
    lines (method, header string, path with query, body), joined by
    newlines. *)
Definition header_string (secretId : string) (nonce timestamp : Z) : string :=
  "X-TC-Key=" ++ secretId ++ "&X-TC-Nonce=" ++ Text.decimal nonce
  ++ "&X-TC-Timestamp=" ++ Text.decimal timestamp.

Definition canonical_string (secretId method : string) (nonce timestamp : Z)
    (path body : string) : string :=
  concat Js.newline [method; header_string secretId nonce timestamp; path; body].

(** Base64 of the 32 bytes of the keyed hash. *)
Definition base64_of_hmac (secretId secretKey method : string)
    (nonce timestamp : Z) (path body : string) : string :=
  Text.base64
    (Sha256.hmac_sha256 (Text.bytes_of_string secretKey)
       (Text.bytes_of_string
          (canonical_string secretId method nonce timestamp path body))).

(** Base64 of the 64 characters of the keyed hash written in hexadecimal. *)
Definition base64_of_hex_hmac (secretId secretKey method : string)
    (nonce timestamp : Z) (path body : string) : string :=
  Text.base64
    (Text.bytes_of_string
       (Text.hex
          (Sha256.hmac_sha256 (Text.bytes_of_string secretKey)
             (Text.bytes_of_string
                (canonical_string secretId method nonce timestamp path body))))).

(** "Changing exactly one of method, nonce, timestamp, path or body changes
    the signature." *)
Definition signature_sensitive : Prop :=
  forall id key m n t u b,
    (forall m', m' <> m -> sign id key m' n t u b <> sign id key m n t u b)
    /\ (forall n', n' <> n -> sign id key m n' t u b <> sign id key m n t u b)
    /\ (forall t', t' <> t -> sign id key m n t' u b <> sign id key m n t u b)
    /\ (forall u', u' <> u -> sign id key m n t u' b <> sign id key m n t u b)
    /\ (forall b', b' <> b -> sign id key m n t u b' <> sign id key m n t u b).

(** A hash value read as one number below [2^256]. *)
Definition word_ok (x : Z) : Prop := 0 <= x < 4294967296.

Definition regs_ok (h : Sha256.regs) : Prop :=
  word_ok (Sha256.ra h) /\ word_ok (Sha256.rb h) /\ word_ok (Sha256.rc h)
  /\ word_ok (Sha256.rd h) /\ word_ok (Sha256.re h) /\ word_ok (Sha256.rf h)
  /\ word_ok (Sha256.rg h) /\ word_ok (Sha256.rh h).

Definition regs_code (h : Sha256.regs) : Z :=
  Sha256.ra h + 4294967296 * (Sha256.rb h + 4294967296 * (Sha256.rc h
  + 4294967296 * (Sha256.rd h + 4294967296 * (Sha256.re h
  + 4294967296 * (Sha256.rf h + 4294967296 * (Sha256.rg h
  + 4294967296 * Sha256.rh h)))))).

(** The members [JSON.stringify] writes for an object. *)
Fixpoint members (fs : list (string * Js.value)) : list string :=
  match fs with
  | [] => []
  | (_, Js.Undefined) :: rest => members rest
  | (k, x) :: rest => (Js.quote k ++ ":" ++ Js.json x)%string :: members rest
  end.


Fixpoint all_chars (p : ascii -> bool) (s : string) : bool :=
  match s with
  | EmptyString => true
  | String c rest => p c && all_chars p rest
  end.

Definition hex_value (c : ascii) : Z :=
  let n := Z.of_N (N_of_ascii c) in
  if (48 <=? n) && (n <=? 57) then n - 48
  else if (65 <=? n) && (n <=? 70) then n - 55
  else n - 87.


(** Decimal digits, most significant first. *)
Definition digit (a : Z) (d : Decimal.uint) : Decimal.uint :=
  if a =? 0 then Decimal.D0 d else if a =? 1 then Decimal.D1 d
  else if a =? 2 then Decimal.D2 d else if a =? 3 then Decimal.D3 d
  else if a =? 4 then Decimal.D4 d else if a =? 5 then Decimal.D5 d
  else if a =? 6 then Decimal.D6 d else if a =? 7 then Decimal.D7 d
  else if a =? 8 then Decimal.D8 d else Decimal.D9 d.

Definition six_digits (r : Z) : Decimal.uint :=
  digit (r / 100000) (digit (r / 10000 mod 10) (digit (r / 1000 mod 10)
    (digit (r / 100 mod 10) (digit (r / 10 mod 10)
       (digit (r mod 10) Decimal.Nil))))).

Fixpoint digits_value (d : Decimal.uint) (acc : Z) : Z :=
  match d with
  | Decimal.Nil => acc
  | Decimal.D0 l => digits_value l (10 * acc)
  | Decimal.D1 l => digits_value l (1 + 10 * acc)
  | Decimal.D2 l => digits_value l (2 + 10 * acc)
  | Decimal.D3 l => digits_value l (3 + 10 * acc)
  | Decimal.D4 l => digits_value l (4 + 10 * acc)
  | Decimal.D5 l => digits_value l (5 + 10 * acc)
  | Decimal.D6 l => digits_value l (6 + 10 * acc)
  | Decimal.D7 l => digits_value l (7 + 10 * acc)
  | Decimal.D8 l => digits_value l (8 + 10 * acc)
  | Decimal.D9 l => digits_value l (9 + 10 * acc)
  end.

Definition is_digit (c : ascii) : bool :=
  let n := Z.of_N (N_of_ascii c) in (48 <=? n) && (n <=? 57).

(** Letters, digits and the padding sign of base64. *)
Definition header_safe (c : ascii) : bool :=
  let n := Z.of_N (N_of_ascii c) in
  ((48 <=? n) && (n <=? 57)) || ((65 <=? n) && (n <=? 90))
  || ((97 <=? n) && (n <=? 122)) || (n =? 61).

(** The codes of the lower-case hexadecimal digits. *)
Definition hex_code (n : Z) : Prop := 48 <= n <= 57 \/ 97 <= n <= 102.

(** A request body of [n] characters. *)
Definition body_of_length (n : nat) : string :=
  string_of_list_ascii (repeat "x"%char n).

(** The configuration [tmRequest] hands to [axios] when it starts in the
    runtime state [rt]. *)
Definition request_config (w : World) (method : Method) (requestUri : string)
    (query : list (string * Js.scalar)) (body : list (string * string))
    (rt : Runtime) : AxiosConfig :=
  let now := Date_now w (clock_reads rt) / 1000 in
  let nonce := random_nonce w (random_reads rt) in
  let pathWithQuery :=
    requestUri
    ++ (if (0 <? List.length query)%nat then "?" ++ Js.qs_stringify query else "") in
  {| cfg_method := method;
     cfg_url := "https://api.meeting.qq.com" ++ pathWithQuery;
     cfg_headers :=
       [ ("Content-Type", "application/json");
         ("X-TC-Key", TM_SECRET_ID (apiEnv w));
         ("AppId", TM_ENTERPRISE_ID (apiEnv w));
         ("SdkId", TM_APP_ID (apiEnv w));
         ("X-TC-Timestamp", "" ++ Text.decimal now);
         ("X-TC-Nonce", "" ++ Text.decimal nonce);
         ("X-TC-Signature",
          sign (TM_SECRET_ID (apiEnv w)) (TM_SECRET_KEY (apiEnv w))
               (method_name method) nonce now pathWithQuery
               (match method with
                | GET => ""
                | POST => Js.json (Js.obj_of_strings body)
                end));
         ("X-TC-Registered", "1") ];
     cfg_data := Js.Undefined |}.

(** The record [createMeeting] passes to [tmRequest] as the body. *)
Definition createMeeting_body (tmUserId subject : string)
    (startTimeSecond endTimeSecond : Z) : list (string * string) :=
  [ ("userid", tmUserId);
    ("instanceid", "1");
    ("subject", subject);
    ("start_time", "" ++ Text.decimal startTimeSecond);
    ("end_time", "" ++ Text.decimal endTimeSecond);
    ("type", "0") ].

(** The runtime state once [tmRequest] has issued [cfg]. *)
Definition requested (rt : Runtime) (cfg : AxiosConfig) : Runtime :=
  {| clock_reads := S (clock_reads rt);
     random_reads := S (random_reads rt);
     requests := requests rt ++ [cfg];
     captured := captured rt |}.

Definition reported (rt : Runtime) (errors : list thrown) : Runtime :=
  {| clock_reads := clock_reads rt;
     random_reads := random_reads rt;
     requests := requests rt;
     captured := captured rt ++ errors |}.

(** The call is answered, and the answer carries [data]. *)
Definition answers (o : Outcome) (data : Js.value) : Prop :=
  exists response,
    o = Resolved response
    /\ Js.nullish response = false
    /\ Js.prop response "data" = data.

(** The call fails with an error that carries [response]. *)
Definition fails_with_response (o : Outcome) (reason response : Js.value)
  : Prop :=
  o = Failed reason
  /\ Js.nullish reason = false
  /\ Js.prop reason "response" = response
  /\ Js.truthy response = true.

(** The call fails with an error that carries no response. *)
Definition fails_without_response (o : Outcome) (reason : Js.value) : Prop :=
  o = Failed reason
  /\ Js.nullish reason = false
  /\ Js.truthy (Js.prop reason "response") = false.

(** A page of [/v1/records] that passes the schema, reports [N] pages in
    all and lists [recs]. *)
Definition records_page (w : World) (data : Js.value) (N : Z)
    (recs : list Js.value) : Prop :=
  exists res,
    Zod.parse (valid_url w) zListRecordsRes data = Some res
    /\ Js.prop res "total_page" = Js.Num N
    /\ (Js.prop res "record_meetings" = Js.Arr recs
        \/ (Js.prop res "record_meetings" = Js.Undefined /\ recs = [])).

(** The request [listRecords] makes for its [k]-th page (counted from 0),
    when it was called in the runtime state [rt]: the clock is read three
    times per page and the random source once. *)
Definition page_runtime (rt : Runtime) (k : nat) (sent : list AxiosConfig)
  : Runtime :=
  {| clock_reads := clock_reads rt + 3 * k + 2;
     random_reads := random_reads rt + k;
     requests := sent;
     captured := captured rt |}.

Definition page_request (w : World) (tmUserId : string) (rt : Runtime)
    (k : nat) : AxiosConfig :=
  request_config w GET "/v1/records"
    (records_query tmUserId
       (Date_now w (clock_reads rt + 3 * k))
       (Date_now w (clock_reads rt + 3 * k + 1))
       (Z.of_nat k + 1))
    [] (page_runtime rt k []).

Definition page_url (w : World) (tmUserId : string) (rt : Runtime) (k : nat)
  : string :=
  "https://api.meeting.qq.com/v1/records?userid=" ++ Js.qs_encode tmUserId
  ++ "&start_time="
  ++ Text.decimal
       (Z.quot (Date_now w (clock_reads rt + 3 * k) - 2678400000) 1000)
  ++ "&end_time="
  ++ Text.decimal (Z.quot (Date_now w (clock_reads rt + 3 * k + 1)) 1000)
  ++ "&page_size=20&page=" ++ Text.decimal (Z.of_nat k + 1).

(** The runtime state once [listRecords], called in [rt], has fetched [k]
    pages. *)
Definition after_pages (w : World) (tmUserId : string) (rt : Runtime)
    (k : nat) : Runtime :=
  {| clock_reads := clock_reads rt + 3 * k;
     random_reads := random_reads rt + k;
     requests := requests rt ++ map (page_request w tmUserId rt) (seq 0 k);
     captured := captured rt |}.

(** The number of pages [listRecords] fetches when every answer reports
    [N] pages. *)
Definition pages_fetched (N : Z) : nat := Z.to_nat (Z.max 1 N).

(** Reading a signature back, as the receiver can: the sextets of the
    base64 text, the bytes of the hexadecimal text, the keyed hash. *)
Fixpoint index_in (c : ascii) (s : string) : Z :=
  match s with
  | EmptyString => 0
  | String d rest => if Ascii.eqb c d then 0 else 1 + index_in c rest
  end.

(** The place of a character in the base64 alphabet; 64 for the padding
    sign. *)
Definition base64_index (c : ascii) : Z := index_in c Text.base64_alphabet.

Fixpoint unbase64 (s : string) : list Z :=
  match s with
  | String c1 (String c2 (String c3 (String c4 rest))) =>
      let i1 := base64_index c1 in
      let i2 := base64_index c2 in
      let i3 := base64_index c3 in
      let i4 := base64_index c4 in
      let x := i1 * 4 + i2 / 16 in
      let y := (i2 mod 16) * 16 + i3 / 4 in
      let z := (i3 mod 4) * 64 + i4 in
      if i3 =? 64 then [x]
      else if i4 =? 64 then [x; y]
      else x :: y :: z :: unbase64 rest
  | _ => []
  end.

Fixpoint unhex (s : string) : list Z :=
  match s with
  | String a (String b rest) => (16 * hex_value a + hex_value b) :: unhex rest
  | _ => []
  end.

Definition hash_of_signature (signature : string) : list Z :=
  unhex (Text.string_of_bytes (unbase64 signature)).

(** What [sign] hashes: the UTF-8 bytes of the text, keyed by the UTF-8
    bytes of the secret key. *)
Definition keyed_hash (secretKey text : list Z) : list Z :=
  Sha256.hmac_sha256 (Text.bytes_of_string (Utf16.utf8 secretKey))
                     (Text.bytes_of_string (Utf16.utf8 text)).

Definition is_ascii (c : ascii) : bool := Z.of_N (N_of_ascii c) <? 128.

(** A string that does not begin with the second half of a pair. *)
Definition starts_clean (s : list Z) : Prop :=
  match s with
  | [] => True
  | v :: _ => Utf16.is_low v = false
  end.

(** Reading UTF-8 bytes back into code units. *)
Fixpoint utf16_of_utf8 (s : string) : list Z :=
  match s with
  | EmptyString => []
  | String c0 rest =>
      let b0 := Z.of_N (N_of_ascii c0) in
      if b0 <? 128 then b0 :: utf16_of_utf8 rest
      else
        match rest with
        | String c1 rest1 =>
            let b1 := Z.of_N (N_of_ascii c1) in
            if b0 <? 224 then
              ((b0 - 192) * 64 + (b1 - 128)) :: utf16_of_utf8 rest1
            else
              match rest1 with
              | String c2 rest2 =>
                  let b2 := Z.of_N (N_of_ascii c2) in
                  if b0 <? 240 then
                    ((b0 - 224) * 4096 + (b1 - 128) * 64 + (b2 - 128))
                      :: utf16_of_utf8 rest2
                  else
                    match rest2 with
                    | String c3 rest3 =>
                        let b3 := Z.of_N (N_of_ascii c3) in
                        let p := (b0 - 240) * 262144 + (b1 - 128) * 4096
                                 + (b2 - 128) * 64 + (b3 - 128) - 65536 in
                        (55296 + p / 1024) :: (56320 + p mod 1024)
                          :: utf16_of_utf8 rest3
                    | EmptyString => []
                    end
              | EmptyString => []
              end
        | EmptyString => []
        end
  end.

End Spec.

(* ================================================================== *)
(** ** Concrete surroundings *)

Module Scenario.

Import TencentMeeting.

Definition env : ApiEnv :=
  {| TM_SECRET_ID := "id"; TM_SECRET_KEY := "key";
     TM_ENTERPRISE_ID := "ent"; TM_APP_ID := "app" |}.

(** A world whose clock starts at 2023-11-14T22:13:20Z and advances one
    millisecond per read. *)
Definition world (reply : nat -> AxiosConfig -> Outcome) : World :=
  {| apiEnv := env;
     Date_now := fun k => 1700000000000 + Z.of_nat k;
     random_nonce := fun k => 4242 + Z.of_nat k;
     axios := reply;
     valid_url := fun u => prefix "https://" u |}.

(** An HTTP 200 answer with the given body. *)
Definition http_200 (data : Js.value) : Outcome :=
  Resolved (Js.Obj [ ("data", data); ("status", Js.Num 200);
                     ("statusText", Js.Str "OK") ]).

(** The error [axios] rejects with on an HTTP error status: it has a
    [response], and the payload of the provider is [response.data]. *)
Definition http_error (status : Z) (payload : Js.value) : Outcome :=
  Failed (Js.Obj [ ("name", Js.Str "AxiosError");
                   ("message", Js.Str "Request failed");
                   ("code", Js.Str "ERR_BAD_REQUEST");
                   ("response", Js.Obj [ ("data", payload);
                                         ("status", Js.Num status) ]) ]).

(** The error [axios] rejects with when no answer arrives. *)
Definition network_error : Js.value :=
  Js.Obj [ ("name", Js.Str "AxiosError");
           ("message", Js.Str "Network Error");
           ("code", Js.Str "ERR_NETWORK") ].

Definition empty_object_world : World := world (fun _ _ => http_200 (Js.Obj [])).

Definition provider_payload : Js.value :=
  Js.Obj [ ("error_info",
            Js.Obj [ ("error_code", Js.Num 9003);
                     ("message", Js.Str "meeting not found") ]) ].

Definition bad_request_world : World :=
  world (fun _ _ => http_error 400 provider_payload).

Definition network_error_world : World :=
  world (fun _ _ => Failed network_error).

Definition created_meeting : Js.value :=
  Js.Obj
    [ ("meeting_number", Js.Num 1);
      ("meeting_info_list", Js.Arr [ Js.Obj
         [ ("subject", Js.Str "Weekly sync");
           ("meeting_id", Js.Str "8920608318088532478");
           ("meeting_code", Js.Str "123371270");
           ("type", Js.Num 1);
           ("join_url", Js.Str "https://meeting.tencent.com/dm/49fYCUGV0YHe");
           ("hosts", Js.Arr [ Js.Obj [ ("userid", Js.Str "u1") ] ]);
           ("start_time", Js.Str "1700000000");
           ("end_time", Js.Str "1700003600");
           ("settings", Js.Obj
              [ ("mute_enable_join", Js.Bool true);
                ("allow_unmute_self", Js.Bool true);
                ("mute_all", Js.Bool true);
                ("mute_enable_type_join", Js.Num 1) ]);
           ("meeting_type", Js.Num 0);
           ("enable_live", Js.Bool false);
           ("media_set_type", Js.Num 0);
           ("location", Js.Str "") ] ]) ].

Definition created_meeting_world : World := world (fun _ _ => http_200 created_meeting).

(** [getMeeting]: the provider knows no such meeting and says so with an
    empty list. *)
Definition no_meeting : Js.value :=
  Js.Obj [ ("meeting_number", Js.Num 0); ("meeting_info_list", Js.Arr []) ].

Definition no_meeting_world : World := world (fun _ _ => http_200 no_meeting).

Definition record (rid : string) : Js.value :=
  Js.Obj [ ("meeting_record_id", Js.Str rid);
           ("subject", Js.Str "Weekly sync");
           ("state", Js.Num 3) ].

(** A page of [/v1/records] that reports [N] pages in all. *)
Definition records_page (N : Z) (recs : list Js.value) : Js.value :=
  Js.Obj [ ("total_count", Js.Num (Z.of_nat (List.length recs)));
           ("total_page", Js.Num N);
           ("record_meetings", Js.Arr recs) ].

Definition two_pages (k : nat) : Js.value :=
  match k with
  | O => records_page 2 [record "r1"; record "r2"]
  | _ => records_page 2 [record "r3"]
  end.

Definition two_pages_recs (k : nat) : list Js.value :=
  match k with
  | O => [record "r1"; record "r2"]
  | _ => [record "r3"]
  end.

Definition two_pages_world : World := world (fun k _ => http_200 (two_pages k)).

(** No recording at all: no page to report. *)
Definition zero_pages_world : World :=
  world (fun _ _ => http_200 (records_page 0 [])).

(** An answer of a shape no schema of the client accepts. *)
Definition unexpected : Js.value :=
  Js.Obj [ ("error_info", Js.Str "maintenance") ].

Definition unexpected_world : World := world (fun _ _ => http_200 unexpected).

(** The provider always announces one page more than the page it serves. *)
Definition endless_page (k : nat) : Js.value :=
  records_page (Z.of_nat k + 2) [record "r"].

Definition endless_world : World := world (fun k _ => http_200 (endless_page k)).

(** Two meetings in one answer of [/v1/meetings/:id]. *)
Definition meeting (mid : string) : Js.value :=
  Js.Obj [ ("subject", Js.Str "Weekly sync");
           ("meeting_id", Js.Str mid);
           ("meeting_code", Js.Str "123371270");
           ("status", Js.Str "MEETING_STATE_READY");
           ("join_url", Js.Str "https://meeting.tencent.com/dm/49fYCUGV0YHe");
           ("start_time", Js.Str "1700000000");
           ("end_time", Js.Str "1700003600") ].

Definition two_meetings : Js.value :=
  Js.Obj [ ("meeting_number", Js.Num 2);
           ("meeting_info_list", Js.Arr [meeting "m1"; meeting "m2"]) ].

Definition two_meetings_world : World := world (fun _ _ => http_200 two_meetings).

(** [/v1/addresses] answers. *)
Definition addresses (total_page : Z) : Js.value :=
  Js.Obj [ ("total_page", Js.Num total_page);
           ("record_files", Js.Arr []) ].

Definition addresses_world (total_page : Z) : World :=
  world (fun _ _ => http_200 (addresses total_page)).

(** The path of [getMeeting(meetingId, "u")] for a meeting id that is one
    code unit. *)
Definition meeting_path (meetingId : Z) : list Z :=
  (Utf16.units "/v1/meetings/" ++ [meetingId]
   ++ Utf16.units "?userid=u&instanceid=1")%list.

End Scenario.

(** A group with two members and one transcript, next to another group. *)
Module GroupScenario.

Import Group.

Definition db : Database :=
  {| groups :=
       [ {| id := "g1"; name := None; meetingLink := None;
            partnershipId := None |};
         {| id := "g2"; name := Some "Custom"; meetingLink := None;
            partnershipId := None |} ];
     groupUsers :=
       [ {| key := "gu1"; groupId := "g1" |};
         {| key := "gu2"; groupId := "g2" |};
         {| key := "gu3"; groupId := "g1" |} ];
     transcripts :=
       [ {| key := "t1"; groupId := "g1" |};
         {| key := "t2"; groupId := "g2" |} ] |}.

(** The first membership is removed while the transcripts are still being
    looked up; the transcript is removed before the second membership. *)
Definition interleaved : list turn :=
  [Resume; Settle 0; Resume; Settle 1; Settle 0; Resume].

(** The rows of the group "g1". *)
Definition of_g1 : list Dependent :=
  [ {| key := "gu1"; groupId := "g1" |};
    {| key := "gu3"; groupId := "g1" |};
    {| key := "t1"; groupId := "g1" |} ].

(** The hook once it has returned: both groups are still there. *)
Definition returned : hook :=
  {| h_db :=
       {| groups := groups db;
          groupUsers := [ {| key := "gu2"; groupId := "g2" |} ];
          transcripts := [ {| key := "t2"; groupId := "g2" |} ] |};
     h_at := Returned;
     h_inflight := [] |}.

End GroupScenario.

(** Vocabulary of the cascade: what holds of the database while the hook
    is suspended. *)
Module GroupSpec.

Import Group.

Definition pending_groupUsers (l : list removal) : list Dependent :=
  flat_map (fun r => match r with
                     | DestroyGroupUser gu => [gu]
                     | DestroyTranscript _ => []
                     end) l.

Definition pending_transcripts (l : list removal) : list Dependent :=
  flat_map (fun r => match r with
                     | DestroyGroupUser _ => []
                     | DestroyTranscript t => [t]
                     end) l.

Definition has_key (r : Dependent) (P : list Dependent) : bool :=
  existsb (fun p => String.eqb (key p) (key r)) P.

(** Rows of other groups. *)
Definition others (g : string) (r : Dependent) : bool :=
  negb (String.eqb (groupId r) g).

(** A row is still in its table when it belongs to another group or when
    its removal is in flight. *)
Definition kept (g : string) (P : list Dependent) (r : Dependent) : bool :=
  others g r || has_key r P.

Definition table_ok (g : string) (T0 T P : list Dependent) (started : bool)
  : Prop :=
  if started then
    T = filter (kept g P) T0
    /\ NoDup (map key P)
    /\ Forall (fun p => In p T0 /\ groupId p = g) P
  else T = T0 /\ P = [].

Definition groupUsers_started (p : point) : bool :=
  match p with
  | AwaitGroupUsers => false
  | _ => true
  end.

Definition transcripts_started (p : point) : bool :=
  match p with
  | AwaitGroupUsers | AwaitTranscripts => false
  | _ => true
  end.

Definition hook_ok (g : string) (db : Database) (h : hook) : Prop :=
  groups (h_db h) = groups db
  /\ table_ok g (groupUsers db) (groupUsers (h_db h))
       (pending_groupUsers (h_inflight h)) (groupUsers_started (h_at h))
  /\ table_ok g (transcripts db) (transcripts (h_db h))
       (pending_transcripts (h_inflight h)) (transcripts_started (h_at h))
  /\ (h_at h = Returned -> h_inflight h = []).

(** The turns of the event loop the hook still needs before it returns:
    its own resumptions, one completion per removal in flight and one per
    removal still to be issued. *)
Definition turns_left (g : string) (h : hook) : nat :=
  match h_at h with
  | AwaitGroupUsers =>
      3 + List.length (h_inflight h)
      + List.length (findAll g (groupUsers (h_db h)))
      + List.length (findAll g (transcripts (h_db h)))
  | AwaitTranscripts =>
      2 + List.length (h_inflight h)
      + List.length (findAll g (transcripts (h_db h)))
  | AwaitAll => 1 + List.length (h_inflight h)
  | Returned => 0
  end.

(** The rows of [group_users] and of [transcripts] that belong to [g]. *)
Definition dependents (g : string) (db : Database) : list Dependent :=
  findAll g (groupUsers db) ++ findAll g (transcripts db).

(** The database once the group [g] and its dependents are gone. *)
Definition without_group (g : string) (db : Database) : Database :=
  {| groups := filter (fun r => negb (String.eqb (id r) g)) (groups db);
     groupUsers := filter (others g) (groupUsers db);
     transcripts := filter (others g) (transcripts db) |}.

End GroupSpec.

(* ================================================================== *)
(** * Properties *)

(** ** Test vectors of the library models *)

Example sha256_abc :
  Text.hex (Sha256.sha256 (Text.bytes_of_string "abc"))
  = "ba7816bf8f01cfea414140de5dae2223b00361a396177a9cb410ff61f20015ad".
Proof. vm_compute. reflexivity. Qed.

Example sha256_two_blocks :
  Text.hex (Sha256.sha256 (Text.bytes_of_string
     "abcdbcdecdefdefgefghfghighijhijkijkljklmklmnlmnomnopnopq"))
  = "248d6a61d20638b8e5c026930c3e6039a33ce45964ff2167f6ecedd419db06c1".
Proof. vm_compute. reflexivity. Qed.

Example hmac_rfc4231_case2 :
  Text.hex (Sha256.hmac_sha256 (Text.bytes_of_string "Jefe")
              (Text.bytes_of_string "what do ya want for nothing?"))
  = "5bdcc146bf60754e6a042426089575c75a003f089d2739839dec58b964ec3843".
Proof. vm_compute. reflexivity. Qed.

Example base64_foobar :
  Text.base64 (Text.bytes_of_string "foobar") = "Zm9vYmFy"
  /\ Text.base64 (Text.bytes_of_string "fooba") = "Zm9vYmE="
  /\ Text.base64 (Text.bytes_of_string "foob") = "Zm9vYg==".
Proof. vm_compute. auto. Qed.

Example sign_vector :
  TencentMeeting.sign "id" "key" "GET" 7 1700000000
    "/v1/meetings/1?userid=u&instanceid=1" ""
  = "ODI4NGQ1ZjYzMGIxNmY4NzhlMGI5NzFlNTJlNmVjMDBjZDcwNzQ0YmNjMTA4NDNhNWY3ZTBhYmU5OTRmZGVhYw==".
Proof. vm_compute. reflexivity. Qed.

(** UTF-8 of one, two, three and four bytes, and an emoji cut in half. *)
Example utf8_examples :
  Text.bytes_of_string (Utf16.utf8 [65; 233; 8364; 55357; 56832])
  = [65; 195; 169; 226; 130; 172; 240; 159; 152; 128]
  /\ Text.bytes_of_string (Utf16.utf8 [55357]) = [239; 191; 189]
  /\ Text.bytes_of_string (Utf16.utf8 [56832; 65]) = [239; 191; 189; 65]
  /\ Utf16.sign (Utf16.units "id") (Utf16.units "key") (Utf16.units "GET")
       7 1700000000 (Utf16.units "/v1/meetings/1?userid=u&instanceid=1") []
     = TencentMeeting.sign "id" "key" "GET" 7 1700000000
         "/v1/meetings/1?userid=u&instanceid=1" "".
Proof. vm_compute. repeat split. Qed.

Example json_examples :
  Js.JSON_stringify (Js.Obj []) = Some "{}"
  /\ Js.JSON_stringify (Js.Obj [("a", Js.Undefined)]) = Some "{}"
  /\ Js.JSON_stringify (Js.Arr [Js.Num 1; Js.Undefined; Js.Str "x"])
     = Some ("[1,null," ++ Js.dquote ++ "x" ++ Js.dquote ++ "]")
  /\ Js.JSON_stringify (Js.obj_of_strings [("type", "0")])
     = Some ("{" ++ Js.quote "type" ++ ":" ++ Js.quote "0" ++ "}")
  /\ Js.quote ("a" ++ Js.dquote ++ "\" ++ Js.newline)
     = Js.dquote ++ "a\" ++ Js.dquote ++ "\\\n" ++ Js.dquote.
Proof. vm_compute. auto. Qed.

Example qs_examples :
  Js.qs_stringify [("userid", Js.SStr "a b"); ("page_size", Js.SNum 20)]
  = "userid=a%20b&page_size=20".
Proof. vm_compute. reflexivity. Qed.

Example one_on_one_bytes : String.length GroupName.one_on_one = 15%nat.
Proof. reflexivity. Qed.

(** ** Test vectors of the library models *)

(** ** Strings *)

Section StringFacts.

Lemma append_nil_r (s : string) : s ++ "" = s.
Proof. induction s as [|c s IH]; simpl; [reflexivity | now rewrite IH]. Qed.

Lemma append_assoc (a b c : string) : (a ++ b) ++ c = a ++ (b ++ c).
Proof. induction a as [|x a IH]; simpl; [reflexivity | now rewrite IH]. Qed.

Lemma length_append (a b : string) :
  String.length (a ++ b) = (String.length a + String.length b)%nat.
Proof. induction a as [|x a IH]; simpl; [reflexivity | now rewrite IH]. Qed.

Lemma append_cancel_l (a x y : string) : a ++ x = a ++ y -> x = y.
Proof.
  induction a as [|c a IH]; simpl; intros H; [exact H|].
  injection H as H. now apply IH.
Qed.

Lemma append_cancel_r (a x y : string) : x ++ a = y ++ a -> x = y.
Proof.
  revert y. induction x as [|c x IH]; intros [|d y] H; simpl in H.
  - reflexivity.
  - apply (f_equal String.length) in H. simpl in H.
    rewrite length_append in H. lia.
  - apply (f_equal String.length) in H. simpl in H.
    rewrite length_append in H. lia.
  - injection H as -> H. f_equal. now apply IH.
Qed.

Lemma decimal_inj (n m : Z) : Text.decimal n = Text.decimal m -> n = m.
Proof.
  unfold Text.decimal. intros H.
  apply DecimalZ.to_int_inj.
  assert (P : forall z, NilZero.int_of_string (NilZero.string_of_int (Z.to_int z))
                        = Some (Z.to_int z)).
  { intros z. apply NilZero.isi; destruct z; simpl; try discriminate;
      intros E; injection E as E;
      now apply DecimalPos.Unsigned.to_uint_nonnil in E. }
  apply (f_equal NilZero.int_of_string) in H.
  rewrite !P in H. now injection H.
Qed.

End StringFacts.

(** ** The signature *)

Section Signature.

Import TencentMeeting.

(** The local [tobeSigned] of [sign] is the canonical string of the
    interface description. *)
Lemma tobeSigned_canonical id m n t u b :
  tobeSigned id m n t u b = Spec.canonical_string id m n t u b.
Proof.
  unfold tobeSigned, Spec.canonical_string, Spec.header_string.
  cbv [String.concat]. now rewrite !append_assoc.
Qed.

Lemma tobeSigned_method_inj id m m' n t u b :
  tobeSigned id m n t u b = tobeSigned id m' n t u b -> m = m'.
Proof.
  unfold tobeSigned. rewrite !append_assoc. apply append_cancel_r.
Qed.

Lemma tobeSigned_nonce_inj id m n n' t u b :
  tobeSigned id m n t u b = tobeSigned id m n' t u b -> n = n'.
Proof.
  unfold tobeSigned. rewrite !append_assoc. intros H.
  do 5 apply append_cancel_l in H.
  apply append_cancel_r in H. now apply decimal_inj.
Qed.

Lemma tobeSigned_timestamp_inj id m n t t' u b :
  tobeSigned id m n t u b = tobeSigned id m n t' u b -> t = t'.
Proof.
  unfold tobeSigned. rewrite !append_assoc. intros H.
  do 7 apply append_cancel_l in H.
  apply append_cancel_r in H. now apply decimal_inj.
Qed.

Lemma tobeSigned_uri_inj id m n t u u' b :
  tobeSigned id m n t u b = tobeSigned id m n t u' b -> u = u'.
Proof.
  unfold tobeSigned. intros H.
  apply append_cancel_l in H. apply append_cancel_l in H.
  now apply append_cancel_r in H.
Qed.

Lemma tobeSigned_body_inj id m n t u b b' :
  tobeSigned id m n t u b = tobeSigned id m n t u b' -> b = b'.
Proof.
  unfold tobeSigned. intros H.
  now do 4 apply append_cancel_l in H.
Qed.

End Signature.

(** ** The keyed hash takes finitely many values *)

Section FiniteHash.

Import TencentMeeting.

Lemma wrap32_ok (x : Z) : Spec.word_ok (Sha256.wrap32 x).
Proof. unfold Spec.word_ok, Sha256.wrap32. apply Z.mod_pos_bound. lia. Qed.

Lemma add_regs_ok (x y : Sha256.regs) : Spec.regs_ok (Sha256.add_regs x y).
Proof.
  unfold Spec.regs_ok, Sha256.add_regs, Sha256.add32. simpl.
  repeat split; apply wrap32_ok.
Qed.

Lemma initial_hash_ok : Spec.regs_ok Sha256.initial_hash.
Proof.
  unfold Spec.regs_ok, Spec.word_ok, Sha256.initial_hash. simpl. lia.
Qed.

Lemma fold_compress_ok (blocks : list (list Z)) :
  forall h, Spec.regs_ok h -> Spec.regs_ok (fold_left Sha256.compress blocks h).
Proof.
  induction blocks as [|b blocks IH]; intros h Hh; simpl; [exact Hh|].
  apply IH. unfold Sha256.compress. apply add_regs_ok.
Qed.

Lemma hash_regs_ok (msg : list Z) : Spec.regs_ok (Sha256.hash_regs msg).
Proof. unfold Sha256.hash_regs. apply fold_compress_ok, initial_hash_ok. Qed.

Lemma hmac_regs_ok (key msg : list Z) : Spec.regs_ok (Sha256.hmac_regs key msg).
Proof. unfold Sha256.hmac_regs. apply hash_regs_ok. Qed.

Lemma digit_bound (a q M : Z) :
  Spec.word_ok a -> 0 <= q < M ->
  0 <= a + 4294967296 * q < 4294967296 * M.
Proof. unfold Spec.word_ok. lia. Qed.

Lemma regs_code_bound (h : Sha256.regs) :
  Spec.regs_ok h -> 0 <= Spec.regs_code h < 2 ^ 256.
Proof.
  unfold Spec.regs_ok, Spec.regs_code.
  destruct h as [a b c d e f g i].
  cbn [Sha256.ra Sha256.rb Sha256.rc Sha256.rd Sha256.re Sha256.rf Sha256.rg Sha256.rh].
  intros (Ha & Hb & Hc & Hd & He & Hf & Hg & Hi).
  change (2 ^ 256) with
    (4294967296 * (4294967296 * (4294967296 * (4294967296 * (4294967296
     * (4294967296 * (4294967296 * 4294967296))))))).
  repeat (apply digit_bound; trivial).
Qed.

Lemma digit_split (a a' q q' : Z) :
  Spec.word_ok a -> Spec.word_ok a' ->
  a + 4294967296 * q = a' + 4294967296 * q' -> a = a' /\ q = q'.
Proof. unfold Spec.word_ok. lia. Qed.

Lemma regs_code_inj (h h' : Sha256.regs) :
  Spec.regs_ok h -> Spec.regs_ok h' ->
  Spec.regs_code h = Spec.regs_code h' -> h = h'.
Proof.
  unfold Spec.regs_ok, Spec.regs_code.
  destruct h as [a b c d e f g i], h' as [a' b' c' d' e' f' g' i'].
  cbn [Sha256.ra Sha256.rb Sha256.rc Sha256.rd Sha256.re Sha256.rf Sha256.rg Sha256.rh].
  intros (Ha & Hb & Hc & Hd & He & Hf & Hg & Hi)
         (Ha' & Hb' & Hc' & Hd' & He' & Hf' & Hg' & Hi') H.
  apply digit_split in H as [-> H]; trivial.
  apply digit_split in H as [-> H]; trivial.
  apply digit_split in H as [-> H]; trivial.
  apply digit_split in H as [-> H]; trivial.
  apply digit_split in H as [-> H]; trivial.
  apply digit_split in H as [-> H]; trivial.
  apply digit_split in H as [-> H]; trivial.
  now subst.
Qed.

(** No sequence of numbers below a bound is without repetition. *)
Lemma no_injection_below (B : Z) :
  0 <= B ->
  forall f : nat -> Z,
    (forall n, 0 <= f n < B) ->
    (forall n m, f n = f m -> n = m) -> False.
Proof.
  intros HB. pattern B. apply natlike_ind; trivial; clear B HB.
  - intros f Hf _. specialize (Hf O). lia.
  - intros B HB IH f Hf Hinj.
    apply (IH (fun n => if f (S n) =? B then f O else f (S n))).
    + intros n. destruct (Z.eqb_spec (f (S n)) B) as [E|E].
      * assert (f O <> B) by (intros E0; rewrite <- E in E0;
                              apply Hinj in E0; discriminate).
        specialize (Hf O). lia.
      * specialize (Hf (S n)). lia.
    + intros n m.
      destruct (Z.eqb_spec (f (S n)) B) as [En|En];
        destruct (Z.eqb_spec (f (S m)) B) as [Em|Em]; intros E.
      * rewrite <- Em in En. apply Hinj in En. now injection En.
      * apply Hinj in E. discriminate.
      * apply Hinj in E. discriminate.
      * apply Hinj in E. now injection E.
Qed.

Lemma body_of_length_inj (n m : nat) :
  Spec.body_of_length n = Spec.body_of_length m -> n = m.
Proof.
  unfold Spec.body_of_length. intros H.
  apply (f_equal list_ascii_of_string) in H.
  rewrite !list_ascii_of_string_of_list_ascii in H.
  apply (f_equal (@List.length ascii)) in H.
  now rewrite !repeat_length in H.
Qed.

End FiniteHash.

Section SignatureShape.

Import TencentMeeting.

Lemma bytes_of_string_length (s : string) :
  List.length (Text.bytes_of_string s) = String.length s.
Proof.
  unfold Text.bytes_of_string. rewrite length_map.
  induction s as [|c s IH]; simpl; [reflexivity | now rewrite IH].
Qed.

Lemma hex_length (l : list Z) :
  String.length (Text.hex l) = (2 * List.length l)%nat.
Proof.
  unfold Text.hex. induction l as [|b l IH]; [reflexivity|].
  cbn [map String.concat]. destruct (map (Text.hex_byte false) l) eqn:E.
  - destruct l; [reflexivity | discriminate].
  - rewrite !length_append, IH. cbn [List.length]. simpl. lia.
Qed.

Lemma base64_length_steps (l : list Z) :
  let P := fun x : list Z =>
    String.length (Text.base64 x) = (4 * ((List.length x + 2) / 3))%nat in
  P l /\ (forall a, P (a :: l)) /\ (forall a b, P (a :: b :: l)).
Proof.
  induction l as [|c l (IH0 & IH1 & IH2)]; cbv zeta.
  - repeat split; reflexivity.
  - split; [apply IH1|]. split; [intros a; apply IH2|].
    intros a b. cbn [Text.base64 String.length List.length].
    cbv zeta in IH0. rewrite IH0.
    replace (S (S (S (List.length l))) + 2)%nat
      with ((List.length l + 2) + 1 * 3)%nat by lia.
    rewrite Nat.div_add by discriminate. lia.
Qed.

Lemma base64_length (l : list Z) :
  String.length (Text.base64 l) = (4 * ((List.length l + 2) / 3))%nat.
Proof. apply (base64_length_steps l). Qed.

Lemma regs_bytes_length (h : Sha256.regs) :
  List.length (Sha256.regs_bytes h) = 32%nat.
Proof. unfold Sha256.regs_bytes. rewrite !length_app. reflexivity. Qed.

(** Whatever is signed, the signature has 88 characters, and the base64
    text of the bare keyed hash has 44. *)
Lemma sign_length id key m n t u b :
  String.length (sign id key m n t u b) = 88%nat.
Proof.
  unfold sign, Sha256.hmac_sha256.
  now rewrite base64_length, bytes_of_string_length, hex_length,
    regs_bytes_length.
Qed.

Lemma base64_of_hmac_length id key m n t u b :
  String.length (Spec.base64_of_hmac id key m n t u b) = 44%nat.
Proof.
  unfold Spec.base64_of_hmac, Sha256.hmac_sha256.
  now rewrite base64_length, regs_bytes_length.
Qed.

(** C4, as stated, fails: on a request of [getMeeting] the signature is not
    the base64 text of the keyed hash of the canonical string. *)
Lemma sign_is_not_base64_of_hmac :
  String.eqb
    (sign "id" "key" "GET" 7 1700000000
       "/v1/meetings/1?userid=u&instanceid=1" "")
    (Spec.base64_of_hmac "id" "key" "GET" 7 1700000000
       "/v1/meetings/1?userid=u&instanceid=1" "")
  = false.
Proof. vm_compute. reflexivity. Qed.

(** C4, amended: for every input, [sign] returns the base64 text of the
    lower-case hexadecimal text of the HMAC-SHA256, keyed by the secret key,
    of the canonical string (method, header string, path with query and
    body, separated by newlines); this signature always has 88 characters
    and never equals the base64 text of the bare 32-byte hash. *)
Theorem sign_is_base64_of_hex_hmac :
  forall id key m n t u b,
    sign id key m n t u b = Spec.base64_of_hex_hmac id key m n t u b
    /\ String.length (sign id key m n t u b) = 88%nat
    /\ sign id key m n t u b <> Spec.base64_of_hmac id key m n t u b.
Proof.
  intros. split; [|split].
  - unfold sign, Spec.base64_of_hex_hmac. now rewrite tobeSigned_canonical.
  - apply sign_length.
  - intros H. apply (f_equal String.length) in H.
    rewrite sign_length, base64_of_hmac_length in H. discriminate H.
Qed.

(** No argument can show that every change of a single input changes the
    signature: the signature is a function of a number below [2^256], and
    there are more bodies than that.  Two bodies with one signature exist,
    though this proof does not produce them. *)
Lemma signature_not_sensitive : Spec.signature_sensitive <-> False.
Proof.
  split; [|contradiction]. intros S.
  set (f := fun n : nat =>
         Spec.regs_code
           (Sha256.hmac_regs (Text.bytes_of_string "key")
              (Text.bytes_of_string
                 (tobeSigned "id" "POST" 0 0 "/v1/meetings"
                    (Spec.body_of_length n))))).
  apply (no_injection_below (2 ^ 256)) with (f := f).
  - apply Z.pow_nonneg. lia.
  - intros n. apply regs_code_bound, hmac_regs_ok.
  - intros n m E. destruct (Nat.eq_dec n m) as [|D]; [assumption|].
    exfalso.
    apply regs_code_inj in E; try apply hmac_regs_ok.
    destruct (S "id" "key" "POST" 0 0 "/v1/meetings" (Spec.body_of_length m))
      as (_ & _ & _ & _ & Sb).
    apply (Sb (Spec.body_of_length n)).
    + intros B. apply body_of_length_inj in B. contradiction.
    + unfold sign, Sha256.hmac_sha256. now rewrite E.
Qed.

End SignatureShape.

(** ** One request *)

Section OneRequest.

Import TencentMeeting.

(** What [tmRequest] does, by the outcome of the HTTP call. *)
Lemma tmRequest_cases w method uri query body rt :
  tmRequest w method uri query body rt =
  let cfg := Spec.request_config w method uri query body rt in
  let rt1 := Spec.requested rt cfg in
  match axios w (List.length (requests rt)) cfg with
  | Resolved response =>
      if Js.nullish response then
        (Throw TypeError, Spec.reported rt1 [TypeError])
      else if option_string_eqb
                (Js.JSON_stringify (Js.prop response "data")) "{}" then
        (Throw (Trpc undefinedResponse),
         Spec.reported (Spec.reported rt1 [Trpc undefinedResponse])
                       [Trpc undefinedResponse])
      else (Ok (Js.prop response "data"), rt1)
  | Failed reason =>
      if Js.nullish reason then (Throw TypeError, rt1)
      else if Js.truthy (Js.prop reason "response") then
        let e := Trpc (failedRequest
                         (Js.prop (Js.prop reason "response") "status")
                         (Js.prop reason "data")) in
        (Throw e, Spec.reported rt1 [e])
      else (Throw (Rejected reason), Spec.reported rt1 [Rejected reason])
  end.
Proof.
  cbv [tmRequest bind ret throw try_catch read_clock draw_nonce await_axios
       read_prop captureException tmRequest_catch Spec.request_config
       Spec.requested Spec.reported clock_reads random_reads requests captured].
  destruct rt as [c r q e]; cbv beta iota.
  match goal with |- context [axios w ?k ?cfg] => destruct (axios w k cfg) as [response|reason] end.
  - destruct (Js.nullish response); [reflexivity|].
    destruct (option_string_eqb _ _); reflexivity.
  - destruct (Js.nullish reason); [reflexivity|].
    destruct (Js.truthy _); reflexivity.
Qed.

End OneRequest.

(** ** A body that passes a schema is not the empty object *)

Section NotEmpty.

Import TencentMeeting.

Lemma json_obj (fields : list (string * Js.value)) :
  Js.json (Js.Obj fields) = "{" ++ concat "," (Spec.members fields) ++ "}".
Proof. reflexivity. Qed.

Lemma members_present k v (fields : list (string * Js.value)) :
  Js.lookup k fields = Some v -> v <> Js.Undefined ->
  exists m ms, Spec.members fields = (Js.dquote ++ m)%string :: ms.
Proof.
  induction fields as [|[k' x] rest IH]; cbn [Js.lookup]; [discriminate|].
  intros L Hv.
  assert (Q : forall y, exists m ms,
             (Js.quote k' ++ ":" ++ Js.json y)%string :: Spec.members rest
             = (Js.dquote ++ m)%string :: ms).
  { intros y. unfold Js.quote. rewrite !append_assoc. eauto. }
  destruct x; cbn [Spec.members]; try apply Q.
  destruct (String.eqb k k').
  - injection L as <-. contradiction.
  - now apply IH.
Qed.

Lemma json_obj_not_empty k v (fields : list (string * Js.value)) :
  Js.lookup k fields = Some v -> v <> Js.Undefined ->
  option_string_eqb (Js.JSON_stringify (Js.Obj fields)) "{}" = false.
Proof.
  intros L Hv. destruct (members_present _ _ _ L Hv) as (m & ms & E).
  unfold Js.JSON_stringify. rewrite json_obj, E.
  cbn [option_string_eqb]. apply String.eqb_neq.
  destruct ms; cbn; intros H; discriminate H.
Qed.

(** Every schema of the client starts with a required number. *)
Lemma parsed_not_empty vu k shape data res :
  Zod.parse vu (Zod.ZObject ((k, Zod.ZNumber) :: shape)) data = Some res ->
  option_string_eqb (Js.JSON_stringify data) "{}" = false.
Proof.
  destruct data; try discriminate. cbn [Zod.parse]. intros H.
  destruct (Js.lookup k fields) as [v|] eqn:L; [|discriminate].
  destruct v; try discriminate.
  now apply (json_obj_not_empty k (Js.Num n)).
Qed.

Lemma zparse_cases w s v rt :
  zparse w s v rt =
  match Zod.parse (valid_url w) s v with
  | Some r => (Ok r, rt)
  | None => (Throw ZodError, rt)
  end.
Proof. unfold zparse. now destruct (Zod.parse _ s v). Qed.

(** A call that is answered with a body other than the empty object
    returns that body and reports nothing. *)
Lemma tmRequest_answered w method uri query body rt data :
  (forall cfg, Spec.answers (axios w (List.length (requests rt)) cfg) data) ->
  option_string_eqb (Js.JSON_stringify data) "{}" = false ->
  tmRequest w method uri query body rt
  = (Ok data,
     Spec.requested rt (Spec.request_config w method uri query body rt)).
Proof.
  intros A NE. rewrite tmRequest_cases. cbv zeta.
  destruct (A (Spec.request_config w method uri query body rt))
    as (response & -> & N & <-).
  now rewrite N, NE.
Qed.

(** A call that is answered with the empty object raises the not-found
    error, after reporting it twice: once before the [throw] and once more
    in the [catch] block around it. *)
Lemma tmRequest_empty_object w method uri query body rt data :
  (forall cfg, Spec.answers (axios w (List.length (requests rt)) cfg) data) ->
  Js.JSON_stringify data = Some "{}" ->
  tmRequest w method uri query body rt
  = (Throw (Trpc undefinedResponse),
     Spec.reported
       (Spec.requested rt (Spec.request_config w method uri query body rt))
       [Trpc undefinedResponse; Trpc undefinedResponse]).
Proof.
  intros A E. rewrite tmRequest_cases. cbv zeta.
  destruct (A (Spec.request_config w method uri query body rt))
    as (response & -> & N & <-).
  rewrite N, E. cbn [option_string_eqb String.eqb Ascii.eqb Bool.eqb].
  unfold Spec.reported. cbn [captured clock_reads random_reads requests].
  now rewrite <- app_assoc.
Qed.

End NotEmpty.

(** ** The endpoints *)

Section Endpoints.

Import TencentMeeting.

Lemma tmRequest_requests w method uri query body rt :
  requests (snd (tmRequest w method uri query body rt))
  = (requests rt ++ [Spec.request_config w method uri query body rt])%list.
Proof.
  rewrite tmRequest_cases. cbv zeta.
  destruct (axios w _ _) as [response|reason].
  - destruct (Js.nullish response); [reflexivity|].
    destruct (option_string_eqb _ _); reflexivity.
  - destruct (Js.nullish reason); [reflexivity|].
    destruct (Js.truthy _); reflexivity.
Qed.

Lemma createMeeting_returns_validated w u s st et rt data res :
  (forall cfg, Spec.answers (axios w (List.length (requests rt)) cfg) data) ->
  Zod.parse (valid_url w) zCreateMeetingRes data = Some res ->
  fst (createMeeting w u s st et rt) = Ok res.
Proof.
  intros A P. unfold createMeeting, bind.
  rewrite (tmRequest_answered _ _ _ _ _ _ data A
             (parsed_not_empty _ _ _ _ _ P)).
  now rewrite zparse_cases, P.
Qed.

(** C1, on the code: whatever the provider does, the one request that
    [createMeeting] issues is a POST to [/v1/meetings] that carries no body;
    the JSON text of userid, instanceid, subject, start_time, end_time and
    type only enters the signature header. *)
Theorem createMeeting_request_has_no_body :
  forall w u s st et rt,
    let body := Spec.createMeeting_body u s st et in
    let cfg := Spec.request_config w POST "/v1/meetings" [] body rt in
    requests (snd (createMeeting w u s st et rt)) = (requests rt ++ [cfg])%list
    /\ cfg_method cfg = POST
    /\ cfg_url cfg = "https://api.meeting.qq.com/v1/meetings"
    /\ cfg_data cfg = Js.Undefined
    /\ Js.lookup "X-TC-Signature" (cfg_headers cfg)
       = Some (sign (TM_SECRET_ID (apiEnv w)) (TM_SECRET_KEY (apiEnv w)) "POST"
                 (random_nonce w (random_reads rt))
                 (Date_now w (clock_reads rt) / 1000)
                 "/v1/meetings" (Js.json (Js.obj_of_strings body))).
Proof.
  intros. repeat split.
  unfold createMeeting, bind.
  pose proof (tmRequest_requests w POST "/v1/meetings" [] body rt) as R.
  fold cfg in R.
  destruct (tmRequest w POST "/v1/meetings" [] _ rt) as [[res|e] rt1] eqn:E;
    cbn [snd] in R |- *; [|exact R].
  rewrite zparse_cases. now destruct (Zod.parse _ _ res).
Qed.

(** C2, on the code: when the provider answers with a body that
    serializes to [{}], every endpoint raises the NOT_FOUND error, and the
    error has then been handed to [Sentry.captureException] twice. *)
Theorem empty_object_raises_not_found_reported_twice :
  forall w rt data,
    (forall cfg, Spec.answers (axios w (List.length (requests rt)) cfg) data) ->
    Js.JSON_stringify data = Some "{}" ->
    let e := Trpc undefinedResponse in
    code undefinedResponse = NOT_FOUND
    /\ (forall u s st et,
           fst (createMeeting w u s st et rt) = Throw e
           /\ captured (snd (createMeeting w u s st et rt))
              = (captured rt ++ [e; e])%list)
    /\ (forall mid u,
           fst (getMeeting w mid u rt) = Throw e
           /\ captured (snd (getMeeting w mid u rt))
              = (captured rt ++ [e; e])%list)
    /\ (forall fuel u,
           fst (listRecords (S fuel) w u rt) = Throw e
           /\ captured (snd (listRecords (S fuel) w u rt))
              = (captured rt ++ [e; e])%list)
    /\ (forall rid u,
           fst (getRecordURLs w rid u rt) = Throw e
           /\ captured (snd (getRecordURLs w rid u rt))
              = (captured rt ++ [e; e])%list).
Proof.
  intros w rt data A E e. split; [reflexivity|].
  repeat split.
  1,2: unfold createMeeting, bind; now rewrite (tmRequest_empty_object _ _ _ _ _ _ data A E).
  1,2: unfold getMeeting, bind; now rewrite (tmRequest_empty_object _ _ _ _ _ _ data A E).
  3,4: unfold getRecordURLs, bind; now rewrite (tmRequest_empty_object _ _ _ _ _ _ data A E).
  all: unfold listRecords; cbn [listRecords_loop]; unfold bind, read_clock;
    cbn [clock_reads random_reads requests captured];
    rewrite (tmRequest_empty_object _ _ _ _ _ _ data); trivial.
Qed.

Lemma empty_object_world_answers rt cfg :
  Spec.answers (axios Scenario.empty_object_world (List.length (requests rt)) cfg)
               (Js.Obj []).
Proof.
  exists (Js.Obj [ ("data", Js.Obj []); ("status", Js.Num 200);
                   ("statusText", Js.Str "OK") ]).
  repeat split; reflexivity.
Defined.

Lemma empty_object_raises_not_found_reported_twice_witness :
  fst (getMeeting Scenario.empty_object_world "8920608318088532478" "u1"
         fresh_runtime)
  = Throw (Trpc undefinedResponse)
  /\ captured (snd (getMeeting Scenario.empty_object_world
                      "8920608318088532478" "u1" fresh_runtime))
     = (captured fresh_runtime
        ++ [Trpc undefinedResponse; Trpc undefinedResponse])%list.
Proof.
  exact (proj1 (proj2 (proj2
           (empty_object_raises_not_found_reported_twice
              Scenario.empty_object_world fresh_runtime (Js.Obj [])
              (empty_object_world_answers fresh_runtime) eq_refl)))
           "8920608318088532478" "u1").
Defined.

(** C3, on the code: when the HTTP call fails with an error that carries a
    response, [tmRequest] raises a BAD_REQUEST error whose message holds the
    status of the response and whose cause is the [data] property of the
    error itself, not of its response; an error without a response is
    raised again unchanged.  Either way the raised value is reported once. *)
Theorem failed_request_cause_is_error_data :
  forall w method uri query body rt reason,
    (forall cfg, axios w (List.length (requests rt)) cfg = Failed reason) ->
    Js.nullish reason = false ->
    let response := Js.prop reason "response" in
    let raised :=
      if Js.truthy response then
        Trpc {| code := BAD_REQUEST;
                message := "Tencent Meeting Rest API request failed, status Code:"
                           ++ Js.to_string (Js.prop response "status");
                cause := Js.prop reason "data" |}
      else Rejected reason in
    fst (tmRequest w method uri query body rt) = Throw raised
    /\ captured (snd (tmRequest w method uri query body rt))
       = (captured rt ++ [raised])%list.
Proof.
  intros w method uri query body rt reason A N response raised.
  rewrite tmRequest_cases. cbv zeta. rewrite A, N.
  subst raised response. destruct (Js.truthy _); split; reflexivity.
Qed.

Lemma failed_request_cause_is_error_data_witness :
  Js.prop (Js.prop (Js.Obj [ ("name", Js.Str "AxiosError");
                             ("message", Js.Str "Request failed");
                             ("code", Js.Str "ERR_BAD_REQUEST");
                             ("response",
                              Js.Obj [ ("data", Scenario.provider_payload);
                                       ("status", Js.Num 400) ]) ])
                   "response") "data"
  = Scenario.provider_payload
  /\ fst (tmRequest Scenario.bad_request_world GET "/v1/meetings/1"
            [("userid", Js.SStr "u1"); ("instanceid", Js.SStr "1")] []
            fresh_runtime)
     = Throw (Trpc {| code := BAD_REQUEST;
                      message := "Tencent Meeting Rest API request failed, status Code:400";
                      cause := Js.Undefined |}).
Proof.
  split; [reflexivity|].
  exact (proj1
           (failed_request_cause_is_error_data Scenario.bad_request_world GET
              "/v1/meetings/1"
              [("userid", Js.SStr "u1"); ("instanceid", Js.SStr "1")] []
              fresh_runtime
              (Js.Obj [ ("name", Js.Str "AxiosError");
                        ("message", Js.Str "Request failed");
                        ("code", Js.Str "ERR_BAD_REQUEST");
                        ("response",
                         Js.Obj [ ("data", Scenario.provider_payload);
                                  ("status", Js.Num 400) ]) ])
              (fun _ => eq_refl) eq_refl)).
Defined.

Lemma http_200_answers data : Spec.answers (Scenario.http_200 data) data.
Proof.
  exists (Js.Obj [ ("data", data); ("status", Js.Num 200);
                   ("statusText", Js.Str "OK") ]).
  repeat split; reflexivity.
Defined.

(** C10: when the validated answer holds an empty [meeting_info_list],
    [getMeeting] returns [undefined]; nothing is raised and nothing is
    reported. *)
Theorem getMeeting_empty_list_returns_undefined :
  forall w mid u rt data res,
    (forall cfg, Spec.answers (axios w (List.length (requests rt)) cfg) data) ->
    Zod.parse (valid_url w) zGetMeetingRes data = Some res ->
    Js.prop res "meeting_info_list" = Js.Arr [] ->
    fst (getMeeting w mid u rt) = Ok Js.Undefined
    /\ captured (snd (getMeeting w mid u rt)) = captured rt.
Proof.
  intros w mid u rt data res A P L. unfold getMeeting, bind.
  rewrite (tmRequest_answered _ _ _ _ _ _ data A
             (parsed_not_empty _ _ _ _ _ P)).
  rewrite zparse_cases, P. unfold ret. cbn [fst snd]. rewrite L.
  split; reflexivity.
Qed.

Lemma getMeeting_empty_list_returns_undefined_witness :
  fst (getMeeting Scenario.no_meeting_world "8920608318088532478" "u1"
         fresh_runtime) = Ok Js.Undefined
  /\ captured (snd (getMeeting Scenario.no_meeting_world
                      "8920608318088532478" "u1" fresh_runtime))
     = captured fresh_runtime.
Proof.
  exact (getMeeting_empty_list_returns_undefined Scenario.no_meeting_world
           "8920608318088532478" "u1" fresh_runtime Scenario.no_meeting
           Scenario.no_meeting
           (fun _ => http_200_answers Scenario.no_meeting) eq_refl eq_refl).
Defined.

(** C7, as stated, fails: an answer that reports no page at all does not
    span more than one page, it passes the schema, and [getRecordURLs]
    still raises METHOD_NOT_SUPPORTED instead of returning it. *)
Lemma getRecordURLs_rejects_zero_pages :
  Zod.parse (valid_url (Scenario.addresses_world 0)) zRecordURLsRes
    (Scenario.addresses 0) = Some (Scenario.addresses 0)
  /\ Js.prop (Scenario.addresses 0) "total_page" = Js.Num 0
  /\ ~ 1 < 0
  /\ fst (getRecordURLs (Scenario.addresses_world 0) "rec" "u1" fresh_runtime)
     = Throw (Trpc paginationNotSupported)
  /\ fst (getRecordURLs (Scenario.addresses_world 0) "rec" "u1" fresh_runtime)
     <> Ok (Scenario.addresses 0).
Proof.
  assert (E : fst (getRecordURLs (Scenario.addresses_world 0) "rec" "u1"
                     fresh_runtime) = Throw (Trpc paginationNotSupported))
    by (vm_compute; reflexivity).
  repeat split; try reflexivity; try lia; try exact E.
  rewrite E. discriminate.
Qed.

(** C7, amended: [getRecordURLs] raises METHOD_NOT_SUPPORTED exactly when
    the validated answer reports a [total_page] other than 1 (2 is rejected,
    and so is 0); when it reports 1, the validated answer is returned. *)
Theorem getRecordURLs_rejects_unless_one_page :
  forall w rid u rt data res N,
    (forall cfg, Spec.answers (axios w (List.length (requests rt)) cfg) data) ->
    Zod.parse (valid_url w) zRecordURLsRes data = Some res ->
    Js.prop res "total_page" = Js.Num N ->
    code paginationNotSupported = METHOD_NOT_SUPPORTED
    /\ (fst (getRecordURLs w rid u rt) = Throw (Trpc paginationNotSupported)
        <-> N <> 1)
    /\ (fst (getRecordURLs w rid u rt) = Ok res <-> N = 1).
Proof.
  intros w rid u rt data res N A P T. split; [reflexivity|].
  unfold getRecordURLs, bind.
  rewrite (tmRequest_answered _ _ _ _ _ _ data A
             (parsed_not_empty _ _ _ _ _ P)).
  rewrite zparse_cases, P, T. cbn [number_of].
  destruct (Z.eqb_spec N 1) as [->|D]; unfold ret, throw; cbn [fst];
    split; split; intros H; try discriminate H; try reflexivity;
    try contradiction; try lia.
Qed.

Lemma getRecordURLs_rejects_unless_one_page_witness :
  fst (getRecordURLs (Scenario.addresses_world 2) "rec" "u1" fresh_runtime)
  = Throw (Trpc paginationNotSupported).
Proof.
  apply (proj1 (proj2 (getRecordURLs_rejects_unless_one_page
                         (Scenario.addresses_world 2) "rec" "u1" fresh_runtime
                         (Scenario.addresses 2) (Scenario.addresses 2) 2
                         (fun _ => http_200_answers (Scenario.addresses 2))
                         eq_refl eq_refl))).
  discriminate.
Defined.

End Endpoints.

(** ** [listRecords] *)

Section ListRecords.

Import TencentMeeting.

Lemma qs_encode_uint (d : Decimal.uint) :
  Js.qs_encode (NilEmpty.string_of_uint d) = NilEmpty.string_of_uint d.
Proof. induction d; cbn; now rewrite ?IHd. Qed.

Lemma qs_encode_decimal (n : Z) :
  Js.qs_encode (Text.decimal n) = Text.decimal n.
Proof.
  unfold Text.decimal. destruct (Z.to_int n) as [d|d]; cbn.
  - destruct d; try reflexivity; apply (qs_encode_uint (_ d)).
  - f_equal. destruct d; try reflexivity; apply (qs_encode_uint (_ d)).
Qed.

Lemma request_config_reads w method uri query body rt rt' :
  clock_reads rt = clock_reads rt' ->
  random_reads rt = random_reads rt' ->
  Spec.request_config w method uri query body rt
  = Spec.request_config w method uri query body rt'.
Proof. unfold Spec.request_config. now intros -> ->. Qed.

Lemma page_request_url w u rt k :
  cfg_method (Spec.page_request w u rt k) = GET
  /\ cfg_url (Spec.page_request w u rt k) = Spec.page_url w u rt k
  /\ cfg_data (Spec.page_request w u rt k) = Js.Undefined.
Proof.
  repeat split.
  unfold Spec.page_request, Spec.request_config, Spec.page_url, records_query.
  cbn [cfg_url List.length Nat.ltb Nat.leb Js.qs_stringify map fst snd
       Js.scalar_string String.concat].
  rewrite !qs_encode_decimal.
  unfold lookback_start, seconds_of.
  change (Js.qs_encode "userid") with "userid".
  change (Js.qs_encode "start_time") with "start_time".
  change (Js.qs_encode "end_time") with "end_time".
  change (Js.qs_encode "page_size") with "page_size".
  change (Js.qs_encode "page") with "page".
  change (Text.decimal 20) with "20".
  change (1000 * (31 * 24 * 3600)) with 2678400000.
  rewrite !append_assoc. reflexivity.
Qed.

Section Paging.

Variables (w : World) (u : string) (rt : Runtime) (N : Z).
Variables (pages : nat -> Js.value) (recs : nat -> list Js.value).

Hypothesis answered :
  forall k cfg,
    Spec.answers (axios w (List.length (requests rt) + k) cfg) (pages k).
Hypothesis reported_pages : forall k, Spec.records_page w (pages k) N (recs k).

Lemma after_pages_length k :
  List.length (requests (Spec.after_pages w u rt k))
  = (List.length (requests rt) + k)%nat.
Proof.
  unfold Spec.after_pages. cbn [requests].
  now rewrite length_app, length_map, length_seq.
Qed.

(** One turn of the loop: page [k + 1] is fetched and its records are
    appended. *)
Lemma listRecords_turn fuel acc k :
  listRecords_loop (S fuel) w u acc (Z.of_nat k + 1) (Spec.after_pages w u rt k)
  = if N <=? Z.of_nat k + 1
    then (Ok (Some (acc ++ recs k)%list), Spec.after_pages w u rt (S k))
    else listRecords_loop fuel w u (acc ++ recs k)%list (Z.of_nat (S k) + 1)
           (Spec.after_pages w u rt (S k)).
Proof.
  cbn [listRecords_loop]. unfold bind at 1 2. unfold read_clock at 1 2.
  cbn [clock_reads random_reads requests captured Spec.after_pages].
  unfold bind at 1.
  set (st := {| clock_reads := S (S (clock_reads rt + 3 * k));
                random_reads := random_reads rt + k;
                requests := (requests rt
                             ++ map (Spec.page_request w u rt) (seq 0 k))%list;
                captured := captured rt |}).
  destruct (reported_pages k) as (res & P & T & F).
  assert (A : forall cfg,
             Spec.answers (axios w (List.length (requests st)) cfg) (pages k)).
  { intros cfg. subst st. cbn [requests].
    rewrite length_app, length_map, length_seq. apply answered. }
  rewrite (tmRequest_answered _ _ _ _ _ _ (pages k) A
             (parsed_not_empty _ _ _ _ _ P)).
  unfold bind. rewrite zparse_cases, P, T. cbn [number_of].
  assert (C : Spec.request_config w GET "/v1/records"
                (records_query u (Date_now w (clock_reads rt + 3 * k))
                   (Date_now w (S (clock_reads rt + 3 * k)))
                   (Z.of_nat k + 1)) [] st
              = Spec.page_request w u rt k).
  { unfold Spec.page_request.
    replace (clock_reads rt + 3 * k + 1)%nat
      with (S (clock_reads rt + 3 * k)) by lia.
    apply request_config_reads; subst st; cbn [clock_reads random_reads
      Spec.page_runtime]; lia. }
  rewrite C.
  assert (R : Spec.requested st (Spec.page_request w u rt k)
              = Spec.after_pages w u rt (S k)).
  { subst st. unfold Spec.requested, Spec.after_pages.
    cbn [clock_reads random_reads requests captured].
    rewrite seq_S, map_app, app_assoc. cbn [map Nat.add].
    f_equal; lia. }
  rewrite R.
  assert (E : array_concat acc
                (if Js.truthy (Js.prop res "record_meetings")
                 then Js.prop res "record_meetings" else Js.Arr [])
              = (acc ++ recs k)%list).
  { destruct F as [F|[F ->]]; rewrite F; reflexivity. }
  rewrite E.
  replace (Z.of_nat k + 1 + 1) with (Z.of_nat (S k) + 1) by lia.
  now destruct (N <=? Z.of_nat k + 1).
Qed.

(** [m] more pages, the last of which is page [pages_fetched N]. *)
Lemma listRecords_remaining m :
  forall fuel acc k,
    (k + S m = Spec.pages_fetched N)%nat ->
    (S m <= fuel)%nat ->
    listRecords_loop fuel w u acc (Z.of_nat k + 1) (Spec.after_pages w u rt k)
    = (Ok (Some (acc ++ List.concat (map recs (seq k (S m))))%list),
       Spec.after_pages w u rt (k + S m)).
Proof.
  unfold Spec.pages_fetched.
  induction m as [|m IH]; intros fuel acc k Hk Hf;
    (destruct fuel as [|fuel]; [lia|]); rewrite listRecords_turn.
  - destruct (Z.leb_spec N (Z.of_nat k + 1)) as [_|L]; [|lia].
    cbn [seq map List.concat]. rewrite app_nil_r.
    now replace (k + 1)%nat with (S k) by lia.
  - destruct (Z.leb_spec N (Z.of_nat k + 1)) as [L|_]; [lia|].
    rewrite IH by lia.
    replace (S k + S m)%nat with (k + S (S m))%nat by lia.
    cbn [seq map List.concat]. now rewrite <- app_assoc.
Qed.

End Paging.

Lemma after_pages_start w u rt : Spec.after_pages w u rt 0 = rt.
Proof.
  destruct rt as [c r q e]. unfold Spec.after_pages.
  cbn [clock_reads random_reads requests captured seq map].
  rewrite app_nil_r. f_equal; lia.
Qed.

Lemma pages_fetched_cases N :
  (1 <= N -> Z.of_nat (Spec.pages_fetched N) = N)
  /\ (N <= 1 -> Spec.pages_fetched N = 1%nat).
Proof. unfold Spec.pages_fetched. split; intros; lia. Qed.

(** C6, as stated, fails: against a provider that reports [total_page = 0]
    on every answer, [listRecords] makes one request, not none. *)
Lemma listRecords_zero_pages_one_request :
  Spec.records_page Scenario.zero_pages_world (Scenario.records_page 0 []) 0 []
  /\ fst (listRecords 5 Scenario.zero_pages_world "u1" fresh_runtime)
     = Ok (Some [])
  /\ map cfg_url
       (requests (snd (listRecords 5 Scenario.zero_pages_world "u1"
                         fresh_runtime)))
     = ["https://api.meeting.qq.com/v1/records?userid=u1&start_time=1697321600&end_time=1700000000&page_size=20&page=1"]
  /\ List.length
       (requests (snd (listRecords 5 Scenario.zero_pages_world "u1"
                         fresh_runtime)))
     <> Z.to_nat 0.
Proof.
  assert (R : map cfg_url
                (requests (snd (listRecords 5 Scenario.zero_pages_world "u1"
                                  fresh_runtime)))
              = ["https://api.meeting.qq.com/v1/records?userid=u1&start_time=1697321600&end_time=1700000000&page_size=20&page=1"])
    by (vm_compute; reflexivity).
  split; [|split; [|split]].
  - exists (Scenario.records_page 0 []). repeat split. now left.
  - vm_compute. reflexivity.
  - exact R.
  - intros H. apply (f_equal (@List.length string)) in R.
    rewrite length_map, H in R. discriminate R.
Qed.

(** C6, amended: against a provider that reports [total_page = N] on every
    answer, [listRecords] makes exactly [max 1 N] sequential page requests
    (pages 1 to N when N is at least 1, the single page 1 otherwise), each a
    GET of [/v1/records] with page size 20 over the 31 days before the clock
    reading, returns the concatenation of the listed records in page order,
    and stops after the last of these pages. *)
Theorem listRecords_fetches_pages_in_order :
  forall w u rt N pages recs fuel,
    (forall k cfg,
        Spec.answers (axios w (List.length (requests rt) + k) cfg) (pages k)) ->
    (forall k, Spec.records_page w (pages k) N (recs k)) ->
    (Spec.pages_fetched N <= fuel)%nat ->
    let n := Spec.pages_fetched N in
    (1 <= N -> Z.of_nat n = N)
    /\ (N <= 1 -> n = 1%nat)
    /\ fst (listRecords fuel w u rt)
       = Ok (Some (List.concat (map recs (seq 0 n))))
    /\ requests (snd (listRecords fuel w u rt))
       = (requests rt ++ map (Spec.page_request w u rt) (seq 0 n))%list
    /\ (forall k,
           cfg_method (Spec.page_request w u rt k) = GET
           /\ cfg_url (Spec.page_request w u rt k) = Spec.page_url w u rt k)
    /\ captured (snd (listRecords fuel w u rt)) = captured rt.
Proof.
  intros w u rt N pages recs fuel A P F n.
  destruct (pages_fetched_cases N) as [C1 C2].
  split; [exact C1|]. split; [exact C2|].
  assert (E : listRecords fuel w u rt
              = (Ok (Some (List.concat (map recs (seq 0 n)))),
                 Spec.after_pages w u rt n)).
  { unfold listRecords. rewrite <- (after_pages_start w u rt) at 1.
    change 1 with (Z.of_nat 0 + 1).
    assert (Hn : (1 <= n)%nat) by (subst n; unfold Spec.pages_fetched; lia).
    destruct n as [|m] eqn:En; [lia|].
    now rewrite (listRecords_remaining w u rt N pages recs A P m fuel [] 0%nat)
      by (cbn [Nat.add]; lia). }
  rewrite E. cbn [fst snd Spec.after_pages requests captured].
  repeat split; apply page_request_url.
Qed.

Lemma two_pages_reported k :
  Spec.records_page Scenario.two_pages_world (Scenario.two_pages k) 2
    (Scenario.two_pages_recs k).
Proof.
  destruct k; eexists; (split; [reflexivity|]); split;
    try reflexivity; left; reflexivity.
Defined.

Lemma listRecords_fetches_pages_in_order_witness :
  fst (listRecords 2 Scenario.two_pages_world "u 1" fresh_runtime)
  = Ok (Some [Scenario.record "r1"; Scenario.record "r2"; Scenario.record "r3"])
  /\ List.length
       (requests (snd (listRecords 2 Scenario.two_pages_world "u 1"
                         fresh_runtime))) = 2%nat.
Proof.
  destruct (listRecords_fetches_pages_in_order Scenario.two_pages_world "u 1"
              fresh_runtime 2 Scenario.two_pages Scenario.two_pages_recs 2%nat
              (fun k _ => http_200_answers (Scenario.two_pages k))
              two_pages_reported (le_n 2))
    as (_ & _ & R & Q & _).
  split; [exact R|]. rewrite Q. reflexivity.
Defined.

End ListRecords.

(** ** [formatGroupName] *)

Section GroupNames.

Import GroupName.

(** C9: an explicit name is returned as it is; without a name, one and two
    participants give the one-on-one label and every larger count gives the
    numeral of the count followed by the call suffix. *)
Theorem formatGroupName_labels :
  forall encodeS : Z -> string,
    (forall name n, formatGroupName encodeS (Some name) n = name)
    /\ formatGroupName encodeS None 1 = one_on_one
    /\ formatGroupName encodeS None 2 = one_on_one
    /\ (forall n, 2 < n ->
          formatGroupName encodeS None n = encodeS n ++ call_suffix)
    /\ formatGroupName encodeS None 5 = encodeS 5 ++ call_suffix
    /\ formatGroupName encodeS (Some "Custom") 5 = "Custom".
Proof.
  intros encodeS. repeat split; try reflexivity.
  intros n Hn. unfold formatGroupName.
  destruct (Z.leb_spec n 2); [lia | reflexivity].
Qed.

End GroupNames.

(** ** The cascade of [Group] *)

Section Cascade.

Import Group GroupSpec.
Local Open Scope list_scope.

Lemma filter_all {A} (f : A -> bool) (l : list A) :
  (forall x, In x l -> f x = true) -> filter f l = l.
Proof.
  induction l as [|a l IH]; intros H; [reflexivity|]. cbn [filter].
  rewrite (H a (or_introl eq_refl)). f_equal. apply IH.
  intros x Hx. apply H. now right.
Qed.

Lemma filter_twice {A} (f g : A -> bool) (l : list A) :
  filter f (filter g l) = filter (fun x => g x && f x) l.
Proof.
  induction l as [|a l IH]; [reflexivity|]. cbn [filter].
  destruct (g a); cbn [filter andb]; [destruct (f a)|]; now rewrite IH.
Qed.

Lemma NoDup_keys_filter (f : Dependent -> bool) (l : list Dependent) :
  NoDup (map key l) -> NoDup (map key (filter f l)).
Proof.
  induction l as [|a l IH]; intros H; [constructor|].
  cbn [map] in H. inversion H as [|? ? Hn Hd]; subst. cbn [filter].
  destruct (f a); [|now apply IH]. cbn [map]. constructor; [|now apply IH].
  intros Hin. apply Hn. apply in_map_iff in Hin as (x & E & Hx).
  apply filter_In in Hx as [Hx _]. apply in_map_iff. eauto.
Qed.

Lemma keys_determine_rows (l : list Dependent) (a b : Dependent) :
  NoDup (map key l) -> In a l -> In b l -> key a = key b -> a = b.
Proof.
  induction l as [|x l IH]; intros H Ha Hb E; [contradiction|].
  cbn [map] in H. inversion H as [|? ? Hn Hd]; subst.
  destruct Ha as [->|Ha], Hb as [->|Hb]; trivial.
  - exfalso. apply Hn. rewrite E. now apply in_map.
  - exfalso. apply Hn. rewrite <- E. now apply in_map.
  - now apply IH.
Qed.

Lemma has_key_spec (r : Dependent) (P : list Dependent) :
  has_key r P = true <-> In (key r) (map key P).
Proof.
  unfold has_key. rewrite existsb_exists, in_map_iff.
  split; intros (p & H1 & H2); exists p.
  - apply String.eqb_eq in H2. now split.
  - split; trivial. now apply String.eqb_eq.
Qed.

Lemma has_key_false (r : Dependent) (P : list Dependent) :
  ~ In (key r) (map key P) -> has_key r P = false.
Proof.
  intros H. destruct (has_key r P) eqn:E; trivial.
  apply has_key_spec in E. contradiction.
Qed.

Lemma has_key_without (r x : Dependent) (P1 P2 : list Dependent) :
  key r <> key x ->
  has_key r (P1 ++ x :: P2) = has_key r (P1 ++ P2).
Proof.
  intros D. unfold has_key. rewrite !existsb_app. cbn [existsb].
  destruct (String.eqb_spec (key x) (key r)) as [E|_]; [|reflexivity].
  symmetry in E. contradiction.
Qed.

Lemma settle_splits {A} (i : nat) (l : list A) (x : A) :
  nth_error l i = Some x ->
  exists l1 l2, l = l1 ++ x :: l2 /\ drop_nth i l = l1 ++ l2.
Proof.
  revert i. induction l as [|a l IH]; intros [|i] H; try discriminate.
  - injection H as ->. now exists [], l.
  - destruct (IH i H) as (l1 & l2 & -> & E).
    exists (a :: l1), l2. cbn [drop_nth app]. now rewrite E.
Qed.

Lemma pending_groupUsers_app l1 l2 :
  pending_groupUsers (l1 ++ l2)
  = pending_groupUsers l1 ++ pending_groupUsers l2.
Proof. apply flat_map_app. Qed.

Lemma pending_transcripts_app l1 l2 :
  pending_transcripts (l1 ++ l2)
  = pending_transcripts l1 ++ pending_transcripts l2.
Proof. apply flat_map_app. Qed.

Lemma pending_groupUsers_issued rows :
  pending_groupUsers (map DestroyGroupUser rows) = rows
  /\ pending_transcripts (map DestroyGroupUser rows) = [].
Proof.
  induction rows as [|r rows [IH1 IH2]]; [now split|].
  unfold pending_groupUsers, pending_transcripts in *.
  cbn [map flat_map app]. now rewrite IH1, IH2.
Qed.

Lemma pending_transcripts_issued rows :
  pending_transcripts (map DestroyTranscript rows) = rows
  /\ pending_groupUsers (map DestroyTranscript rows) = [].
Proof.
  induction rows as [|r rows [IH1 IH2]]; [now split|].
  unfold pending_groupUsers, pending_transcripts in *.
  cbn [map flat_map app]. now rewrite IH1, IH2.
Qed.

(** A table whose removals have just been issued. *)
Lemma table_ok_issued g T0 :
  NoDup (map key T0) -> table_ok g T0 T0 (findAll g T0) true.
Proof.
  intros H. unfold table_ok, findAll. split; [|split].
  - symmetry. apply filter_all. intros r Hr. unfold kept, others.
    destruct (String.eqb_spec (groupId r) g) as [E|_]; [|reflexivity].
    cbn [negb orb]. apply has_key_spec, in_map, filter_In. split; trivial.
    now apply String.eqb_eq.
  - now apply NoDup_keys_filter.
  - apply Forall_forall. intros p Hp. apply filter_In in Hp as [Hp E].
    split; trivial. now apply String.eqb_eq.
Qed.

(** A table one of whose removals completes. *)
Lemma table_ok_settled g T0 T P1 P2 x :
  NoDup (map key T0) ->
  table_ok g T0 T (P1 ++ x :: P2) true ->
  table_ok g T0 (delete_row (key x) T) (P1 ++ P2) true.
Proof.
  intros H0 (ET & Hnd & Hall). unfold table_ok.
  rewrite map_app in Hnd. cbn [map] in Hnd.
  pose proof (NoDup_remove_1 _ _ _ Hnd) as Hnd1.
  pose proof (NoDup_remove_2 _ _ _ Hnd) as Hnx.
  rewrite <- map_app in Hnd1, Hnx.
  rewrite Forall_app in Hall. destruct Hall as [Ha1 Ha2].
  inversion Ha2 as [|? ? [Hx Hg] Ha2']; subst.
  split; [|split]; trivial.
  - unfold delete_row. rewrite filter_twice. apply filter_ext_in.
    intros r Hr. unfold kept.
    destruct (String.eqb_spec (key r) (key x)) as [E|D]; cbn [negb].
    + rewrite andb_false_r.
      assert (r = x) by now apply (keys_determine_rows T0).
      subst r. unfold others. rewrite (proj2 (String.eqb_eq _ _) eq_refl).
      cbn [negb orb]. symmetry. now apply has_key_false.
    + rewrite andb_true_r. now rewrite has_key_without.
  - apply Forall_app. now split.
Qed.

Section Invariant.

Variables (g : string) (db : Database).
Hypothesis groupUsers_keys : NoDup (map key (groupUsers db)).
Hypothesis transcripts_keys : NoDup (map key (transcripts db)).

Lemma start_ok : hook_ok g db (cascadeDestroy_start db).
Proof.
  unfold hook_ok, cascadeDestroy_start. cbn.
  repeat split; discriminate.
Qed.

Lemma resume_ok h h' :
  hook_ok g db h -> resume g h = Some h' -> hook_ok g db h'.
Proof.
  intros (G & U & T & R). unfold resume.
  destruct h as [d p l]; cbn [h_db h_at h_inflight] in *.
  destruct p; cbn [groupUsers_started transcripts_started table_ok] in *.
  - intros [= <-]. destruct U as [EU PU], T as [ET PT].
    unfold hook_ok; cbn [h_db h_at h_inflight groupUsers_started
                         transcripts_started table_ok].
    rewrite pending_groupUsers_app, pending_transcripts_app, PU, PT, EU.
    destruct (pending_groupUsers_issued (findAll g (groupUsers db))) as [-> ->].
    cbn [app].
    refine (conj G (conj (table_ok_issued g _ groupUsers_keys)
                         (conj (conj ET eq_refl) _))).
    discriminate.
  - intros [= <-]. destruct T as [ET PT].
    unfold hook_ok; cbn [h_db h_at h_inflight groupUsers_started
                         transcripts_started table_ok].
    rewrite pending_groupUsers_app, pending_transcripts_app, PT, ET.
    destruct (pending_transcripts_issued (findAll g (transcripts db)))
      as [-> ->].
    rewrite app_nil_r. cbn [app].
    refine (conj G (conj U (conj (table_ok_issued g _ transcripts_keys) _))).
    discriminate.
  - destruct l; [|discriminate]. intros [= <-].
    unfold hook_ok; cbn [h_db h_at h_inflight groupUsers_started
                         transcripts_started table_ok].
    exact (conj G (conj U (conj T (fun _ => eq_refl)))).
  - discriminate.
Qed.

Lemma settle_ok i h h' :
  hook_ok g db h -> settle i h = Some h' -> hook_ok g db h'.
Proof.
  intros (G & U & T & R). unfold settle.
  destruct h as [d p l]; cbn [h_db h_at h_inflight] in *.
  destruct (nth_error l i) as [r|] eqn:E; [|discriminate]. intros [= <-].
  destruct (settle_splits _ _ _ E) as (l1 & l2 & -> & ->).
  unfold hook_ok; cbn [h_db h_at h_inflight].
  rewrite !pending_groupUsers_app, !pending_transcripts_app in *.
  split; [now destruct r|].
  destruct r as [gu|t];
    cbn [pending_groupUsers pending_transcripts flat_map app complete
         groupUsers transcripts] in *;
    fold (pending_groupUsers l2) (pending_transcripts l2) in *.
  - split; [|split]; trivial.
    + destruct (groupUsers_started p).
      * now apply table_ok_settled.
      * destruct U as [_ U]. now destruct (pending_groupUsers l1).
    + intros ->. specialize (R eq_refl). now destruct l1.
  - split; [|split]; trivial.
    + destruct (transcripts_started p).
      * now apply table_ok_settled.
      * destruct T as [_ T]. now destruct (pending_transcripts l1).
    + intros ->. specialize (R eq_refl). now destruct l1.
Qed.

Lemma run_ok schedule :
  forall h h', hook_ok g db h -> run g schedule h = Some h' -> hook_ok g db h'.
Proof.
  induction schedule as [|c rest IH]; intros h h' H; cbn [run].
  - now intros [= <-].
  - destruct (step g c h) as [h1|] eqn:E; [|discriminate].
    apply IH. destruct c; cbn [step] in E.
    + now apply (resume_ok h).
    + now apply (settle_ok i h).
Qed.

(** What the hook leaves when it returns. *)
Lemma returned_ok h :
  hook_ok g db h -> h_at h = Returned ->
  groupUsers (h_db h) = filter (others g) (groupUsers db)
  /\ transcripts (h_db h) = filter (others g) (transcripts db).
Proof.
  intros (_ & U & T & R) E. rewrite E in U, T. rewrite (R E) in U, T.
  cbn in U, T. destruct U as [-> _], T as [-> _].
  split; apply filter_ext; intros r; unfold kept; cbn; apply orb_false_r.
Qed.

End Invariant.

Lemma settle_in_order g n :
  forall h rest,
    List.length (h_inflight h) = n ->
    exists h',
      run g (repeat (Settle 0) n ++ rest) h = run g rest h'
      /\ h_at h' = h_at h /\ h_inflight h' = [].
Proof.
  induction n as [|n IH]; intros [d p l] rest; cbn [h_inflight]; intros L.
  - destruct l; [|discriminate]. eexists. repeat split.
  - destruct l as [|r l]; [discriminate|]. injection L as L.
    cbn [repeat app run step settle h_inflight nth_error drop_nth h_db h_at].
    destruct (IH {| h_db := complete r d; h_at := p; h_inflight := l |} rest L)
      as (h' & E & A & F).
    exists h'. now rewrite E.
Qed.

Lemma in_order_returns g db :
  exists h,
    run g (in_order (List.length (findAll g (groupUsers db))
                     + List.length (findAll g (transcripts db))))
        (cascadeDestroy_start db) = Some h
    /\ h_at h = Returned.
Proof.
  unfold in_order, cascadeDestroy_start.
  cbn [run step resume h_at h_db h_inflight app].
  match goal with
  | |- context [run g _ ?h2] =>
      destruct (settle_in_order g
                  (List.length (findAll g (groupUsers db))
                   + List.length (findAll g (transcripts db))) h2 [Resume])
        as (h' & E & A & F)
  end.
  - cbn [h_inflight]. now rewrite length_app, !length_map.
  - rewrite E. destruct h' as [d p l]. cbn [h_at h_inflight] in A, F.
    subst p l. cbn. eauto.
Qed.

Lemma findAll_others g rows : findAll g (filter (others g) rows) = [].
Proof.
  unfold findAll, others. induction rows as [|r rows IH]; [reflexivity|].
  cbn [filter]. destruct (String.eqb (groupId r) g) eqn:E; cbn [negb]; trivial.
  cbn [filter]. now rewrite E.
Qed.

Lemma destroy_run_deleted g schedule d s :
  destroy_run g schedule (Deleted d) = Some s -> schedule = [] /\ s = Deleted d.
Proof.
  destruct schedule; cbn [destroy_run destroy_step]; [|discriminate].
  now intros [= <-].
Qed.

(** A run of [destroy] is a run of the hook, followed, once the hook has
    returned, by the one turn that deletes the row. *)
Lemma destroy_run_cases g schedule :
  forall h0 s,
    destroy_run g schedule (InHook h0) = Some s ->
    (exists h, s = InHook h /\ run g schedule h0 = Some h)
    \/ (exists before h,
          schedule = before ++ [Resume]
          /\ run g before h0 = Some h /\ h_at h = Returned
          /\ s = Deleted (remove_group g (h_db h))).
Proof.
  induction schedule as [|c rest IH]; intros h0 s; cbn [destroy_run].
  - intros [= <-]. left. now exists h0.
  - assert (Hook : forall h1, step g c h0 = Some h1 ->
                destroy_run g rest (InHook h1) = Some s ->
                (exists h, s = InHook h /\ run g (c :: rest) h0 = Some h)
                \/ (exists before h,
                      c :: rest = before ++ [Resume]
                      /\ run g before h0 = Some h /\ h_at h = Returned
                      /\ s = Deleted (remove_group g (h_db h)))).
    { intros h1 E R. destruct (IH _ _ R) as [(h & -> & Rh)|(b & h & -> & Rh & A & ->)].
      - left. exists h. cbn [run]. now rewrite E.
      - right. exists (c :: b), h. cbn [run app]. now rewrite E. }
    unfold destroy_step.
    destruct (h_at h0) eqn:A, c as [|i];
      try (destruct (step g _ h0) as [h1|] eqn:E; cbn [option_map];
           [now apply Hook | discriminate]).
    intros R. apply destroy_run_deleted in R as [-> ->].
    right. now exists [], h0.
Qed.

(** C8: in every run of [group.destroy()], whatever the order in which the
    removals complete, the row of the group is in its table for as long as
    the hook runs, and the one turn that changes the table of groups is
    taken when no row of [group_users] or [transcripts] of the group is
    left: all N + M of them (and no row of another group) are gone before
    the row of the group is removed.  The removals are issued without
    waiting for one another and awaited together; the cascade completes
    when they complete. *)
Theorem cascadeDestroy_removes_dependents_first :
  forall db g,
    NoDup (map key (groupUsers db)) ->
    NoDup (map key (transcripts db)) ->
    let N := List.length (findAll g (groupUsers db)) in
    let M := List.length (findAll g (transcripts db)) in
    (forall schedule s,
        destroy_run g schedule (destroy_start db) = Some s ->
        match s with
        | InHook h =>
            groups (h_db h) = groups db
            /\ (h_at h = Returned ->
                groupUsers (h_db h) = filter (others g) (groupUsers db)
                /\ transcripts (h_db h) = filter (others g) (transcripts db)
                /\ (List.length (groupUsers (h_db h)) + N
                    = List.length (groupUsers db))%nat
                /\ (List.length (transcripts (h_db h)) + M
                    = List.length (transcripts db))%nat)
        | Deleted db' => db' = without_group g db
        end)
    /\ (forall schedule s c s',
          destroy_run g schedule (destroy_start db) = Some s ->
          destroy_step g c s = Some s' ->
          groups (database s') <> groups (database s) ->
          dependents g (database s) = []
          /\ database s' = without_group g db)
    /\ (forall schedule s,
          destroy_run g schedule (destroy_start db) = Some s ->
          dependents g (database s) <> [] ->
          groups (database s) = groups db)
    /\ (forall schedule db',
          destroy g schedule db = Some db' -> db' = without_group g db)
    /\ destroy g (in_order (N + M) ++ [Resume]) db
       = Some (without_group g db).
Proof.
  intros db g KU KT N M.
  assert (Safe : forall schedule h,
             run g schedule (cascadeDestroy_start db) = Some h ->
             groups (h_db h) = groups db
             /\ (h_at h = Returned ->
                 groupUsers (h_db h) = filter (others g) (groupUsers db)
                 /\ transcripts (h_db h) = filter (others g) (transcripts db))).
  { intros schedule h E.
    pose proof (run_ok g db KU KT schedule _ _ (start_ok g db) E) as OK.
    split; [apply OK|]. now apply returned_ok. }
  assert (Gone : forall h,
             groups (h_db h) = groups db ->
             groupUsers (h_db h) = filter (others g) (groupUsers db) ->
             transcripts (h_db h) = filter (others g) (transcripts db) ->
             remove_group g (h_db h) = without_group g db).
  { intros h G U T. unfold remove_group, without_group. now rewrite G, U, T. }
  assert (Moment : forall schedule s,
             destroy_run g schedule (destroy_start db) = Some s ->
             match s with
             | InHook h =>
                 groups (h_db h) = groups db
                 /\ (h_at h = Returned ->
                     groupUsers (h_db h) = filter (others g) (groupUsers db)
                     /\ transcripts (h_db h)
                        = filter (others g) (transcripts db))
             | Deleted db' => db' = without_group g db
             end).
  { intros schedule s E.
    destruct (destroy_run_cases _ _ _ _ E)
      as [(h & -> & R)|(b & h & _ & R & A & ->)].
    - exact (Safe _ _ R).
    - destruct (Safe _ _ R) as [G F]. destruct (F A) as [U T].
      now apply Gone. }
  assert (Done : forall schedule db',
             destroy g schedule db = Some db' -> db' = without_group g db).
  { intros schedule db'. unfold destroy.
    destruct (destroy_run g schedule (destroy_start db)) as [[h|d]|] eqn:E;
      try discriminate.
    intros [= <-]. exact (Moment _ _ E). }
  split; [|split; [|split; [|split; [exact Done|]]]].
  - intros schedule s E. pose proof (Moment _ _ E) as Ms.
    destruct s as [h|d]; [|exact Ms].
    destruct Ms as [G R]. split; [exact G|]. intros A. destruct (R A) as [U T].
    split; [exact U|]. split; [exact T|].
    rewrite U, T. subst N M. unfold findAll, others.
    split.
    + rewrite Nat.add_comm. apply (filter_length (fun r => String.eqb (groupId r) g)).
    + rewrite Nat.add_comm. apply (filter_length (fun r => String.eqb (groupId r) g)).
  - intros schedule s c s' E St Ch. pose proof (Moment _ _ E) as Ms.
    destruct s as [h|d]; [|discriminate].
    destruct Ms as [G R]. cbn [database] in *.
    assert (E' : destroy_run g (schedule ++ [c]) (destroy_start db) = Some s').
    { clear - E St. revert E. generalize (destroy_start db).
      induction schedule as [|c0 rest IH]; intros s0; cbn [destroy_run app].
      - intros [= ->]. now rewrite St.
      - destruct (destroy_step g c0 s0); [apply IH|discriminate]. }
    pose proof (Moment _ _ E') as Ms'.
    destruct s' as [h'|d']; cbn [database] in *.
    + destruct Ms' as [G' _]. exfalso. apply Ch. now rewrite G', G.
    + split; [|exact Ms'].
      unfold destroy_step in St.
      destruct (h_at h) eqn:A, c as [|i];
        try (destruct (step g _ h); discriminate).
      destruct (R eq_refl) as [U T]. unfold dependents.
      now rewrite U, T, !findAll_others.
  - intros schedule s E Dep. pose proof (Moment _ _ E) as Ms.
    destruct s as [h|d]; cbn [database] in *; [apply Ms|].
    exfalso. apply Dep. subst d. unfold dependents, without_group.
    cbn [groupUsers transcripts]. now rewrite !findAll_others.
  - destruct (in_order_returns g db) as (h & E & A).
    fold N M in E.
    assert (D : destroy g (in_order (N + M) ++ [Resume]) db
                = Some (remove_group g (h_db h))).
    { unfold destroy, destroy_start.
      assert (P : forall schedule h0,
                 run g schedule h0 = Some h ->
                 destroy_run g (schedule ++ [Resume]) (InHook h0)
                 = Some (Deleted (remove_group g (h_db h)))).
      { clear - A. induction schedule as [|c rest IH]; intros h0;
          cbn [run app destroy_run].
        - intros [= ->]. unfold destroy_step. now rewrite A.
        - destruct (step g c h0) as [h1|] eqn:S1; [|discriminate].
          intros R. unfold destroy_step.
          destruct (h_at h0) eqn:A0, c as [|i];
            try (rewrite S1; cbn [option_map]; now apply IH).
          unfold step, resume in S1. now rewrite A0 in S1. }
      now rewrite (P _ _ E). }
    rewrite D. f_equal. apply (Done _ _ D).
Qed.

Lemma scenario_keys :
  NoDup (map key (groupUsers GroupScenario.db))
  /\ NoDup (map key (transcripts GroupScenario.db)).
Proof.
  split; cbn; repeat constructor; cbn; intuition discriminate.
Qed.

Lemma cascadeDestroy_removes_dependents_first_witness :
  (destroy_run "g1" GroupScenario.interleaved (destroy_start GroupScenario.db)
   = Some (InHook GroupScenario.returned)
   /\ dependents "g1" GroupScenario.db = GroupScenario.of_g1
   /\ dependents "g1" (h_db GroupScenario.returned) = []
   /\ remove_group "g1" (h_db GroupScenario.returned)
      = without_group "g1" GroupScenario.db)
  /\ destroy "g1" (GroupScenario.interleaved ++ [Resume]) GroupScenario.db
     = Some (without_group "g1" GroupScenario.db)
  /\ destroy "g1" (in_order 3 ++ [Resume]) GroupScenario.db
     = Some (without_group "g1" GroupScenario.db).
Proof.
  destruct (cascadeDestroy_removes_dependents_first GroupScenario.db "g1"
              (proj1 scenario_keys) (proj2 scenario_keys))
    as (_ & B & _ & D & O).
  split; [|split; [|exact O]].
  - destruct (B GroupScenario.interleaved (InHook GroupScenario.returned)
                Resume
                (Deleted (remove_group "g1" (h_db GroupScenario.returned)))
                eq_refl eq_refl) as [Dep W].
    + cbn. discriminate.
    + split; [reflexivity | split; [reflexivity | split; [exact Dep | exact W]]].
  - rewrite <- (D (GroupScenario.interleaved ++ [Resume])%list _ eq_refl).
    reflexivity.
Defined.

End Cascade.

(** ** More on the requests of the client *)

Section Requests.

Import TencentMeeting.

(** Every call of [tmRequest], whatever its outcome, reads the clock once,
    draws one nonce and issues exactly one request; the request has no
    body, and its signature header is computed from the very timestamp and
    nonce its other headers announce. *)
Theorem tmRequest_issues_one_signed_request :
  forall w method uri query body rt,
    let rt' := snd (tmRequest w method uri query body rt) in
    let ts := Date_now w (clock_reads rt) / 1000 in
    let nonce := random_nonce w (random_reads rt) in
    let path :=
      uri ++ (if (0 <? List.length query)%nat
              then "?" ++ Js.qs_stringify query else "") in
    exists cfg,
      requests rt' = (requests rt ++ [cfg])%list
      /\ clock_reads rt' = S (clock_reads rt)
      /\ random_reads rt' = S (random_reads rt)
      /\ cfg_method cfg = method
      /\ cfg_url cfg = "https://api.meeting.qq.com" ++ path
      /\ cfg_data cfg = Js.Undefined
      /\ map fst (cfg_headers cfg)
         = ["Content-Type"; "X-TC-Key"; "AppId"; "SdkId"; "X-TC-Timestamp";
            "X-TC-Nonce"; "X-TC-Signature"; "X-TC-Registered"]
      /\ Js.lookup "X-TC-Key" (cfg_headers cfg) = Some (TM_SECRET_ID (apiEnv w))
      /\ Js.lookup "X-TC-Timestamp" (cfg_headers cfg) = Some (Text.decimal ts)
      /\ Js.lookup "X-TC-Nonce" (cfg_headers cfg) = Some (Text.decimal nonce)
      /\ Js.lookup "X-TC-Signature" (cfg_headers cfg)
         = Some (sign (TM_SECRET_ID (apiEnv w)) (TM_SECRET_KEY (apiEnv w))
                   (method_name method) nonce ts path
                   (match method with
                    | GET => ""
                    | POST => Js.json (Js.obj_of_strings body)
                    end)).
Proof.
  intros. exists (Spec.request_config w method uri query body rt).
  split; [apply tmRequest_requests|].
  assert (C : clock_reads rt' = S (clock_reads rt)
              /\ random_reads rt' = S (random_reads rt)).
  { subst rt'. rewrite tmRequest_cases. cbv zeta.
    destruct (axios w _ _) as [response|reason].
    - destruct (Js.nullish response); [now split|].
      destruct (option_string_eqb _ _); now split.
    - destruct (Js.nullish reason); [now split|].
      destruct (Js.truthy _); now split. }
  destruct C as [C1 C2]. repeat split; trivial.
Qed.

(** What [tmRequest] raises it has reported, and it reports nothing when it
    returns.  The one exception is a rejection with [null] or [undefined]:
    reading its [response] in the [catch] block raises a [TypeError] that
    nobody reports. *)
Theorem tmRequest_reports_what_it_raises :
  forall w method uri query body rt,
    match tmRequest w method uri query body rt with
    | (Ok _, rt') => captured rt' = captured rt
    | (Throw e, rt') =>
        (exists earlier, captured rt' = (captured rt ++ earlier ++ [e])%list)
        \/ (e = TypeError
            /\ captured rt' = captured rt
            /\ exists reason,
                 axios w (List.length (requests rt))
                   (Spec.request_config w method uri query body rt)
                 = Failed reason
                 /\ Js.nullish reason = true)
    end.
Proof.
  intros. rewrite tmRequest_cases. cbv zeta.
  destruct (axios w _ _) as [response|reason] eqn:A.
  - destruct (Js.nullish response); [left; now exists []|].
    destruct (option_string_eqb _ _); [|reflexivity].
    left. exists [Trpc undefinedResponse]. cbn. now rewrite <- app_assoc.
  - destruct (Js.nullish reason) eqn:N; [right; eauto|].
    destruct (Js.truthy _); left; now exists [].
Qed.

Lemma zparsed_requests {A} w (c : M Js.value) (s : Zod.schema)
    (k : Js.value -> M A) rt :
  (forall v st, requests (snd (k v st)) = requests st) ->
  requests (snd (bind c (fun raw => bind (zparse w s raw) k) rt))
  = requests (snd (c rt)).
Proof.
  intros K. unfold bind. destruct (c rt) as [[raw|e] rt1]; [|reflexivity].
  rewrite zparse_cases. destruct (Zod.parse _ s raw); [apply K|reflexivity].
Qed.

(** The requests of [getMeeting] and [getRecordURLs], whatever the outcome:
    one GET each; the user id and the record id are percent-encoded, the
    meeting id goes into the path as it is. *)
Theorem lookup_requests_urls :
  forall w rt,
    (forall mid u,
        exists cfg,
          requests (snd (getMeeting w mid u rt)) = (requests rt ++ [cfg])%list
          /\ cfg_method cfg = GET
          /\ cfg_url cfg = "https://api.meeting.qq.com/v1/meetings/" ++ mid
                           ++ "?userid=" ++ Js.qs_encode u ++ "&instanceid=1")
    /\ (forall rid u,
           exists cfg,
             requests (snd (getRecordURLs w rid u rt))
             = (requests rt ++ [cfg])%list
             /\ cfg_method cfg = GET
             /\ cfg_url cfg
                = "https://api.meeting.qq.com/v1/addresses?meeting_record_id="
                  ++ Js.qs_encode rid ++ "&userid=" ++ Js.qs_encode u).
Proof.
  intros w rt. split.
  - intros mid u. eexists. split; [|split].
    + unfold getMeeting. rewrite zparsed_requests by reflexivity.
      apply tmRequest_requests.
    + reflexivity.
    + unfold Spec.request_config.
      cbn [cfg_url List.length Nat.ltb Nat.leb Js.qs_stringify map fst snd
           Js.scalar_string String.concat].
      change (Js.qs_encode "userid") with "userid".
      change (Js.qs_encode "instanceid") with "instanceid".
      change (Js.qs_encode "1") with "1".
      now rewrite !append_assoc.
  - intros rid u. eexists. split; [|split].
    + unfold getRecordURLs. rewrite zparsed_requests.
      * apply tmRequest_requests.
      * intros v st. now destruct (number_of _ =? 1).
    + reflexivity.
    + unfold Spec.request_config.
      cbn [cfg_url List.length Nat.ltb Nat.leb Js.qs_stringify map fst snd
           Js.scalar_string String.concat].
      change (Js.qs_encode "userid") with "userid".
      change (Js.qs_encode "meeting_record_id") with "meeting_record_id".
      now rewrite !append_assoc.
Qed.

End Requests.

(** ** Answers that fail or pass the schema *)

Section Validation.

Import TencentMeeting.

(** An answer that is not the empty object and fails the schema of the
    endpoint makes the endpoint raise the validation error; that error is
    raised outside [tmRequest] and is never reported. *)
Theorem invalid_answer_raises_unreported_ZodError :
  forall w rt data,
    (forall cfg, Spec.answers (axios w (List.length (requests rt)) cfg) data) ->
    option_string_eqb (Js.JSON_stringify data) "{}" = false ->
    (Zod.parse (valid_url w) zCreateMeetingRes data = None ->
     forall u s st et,
       fst (createMeeting w u s st et rt) = Throw ZodError
       /\ captured (snd (createMeeting w u s st et rt)) = captured rt)
    /\ (Zod.parse (valid_url w) zGetMeetingRes data = None ->
        forall mid u,
          fst (getMeeting w mid u rt) = Throw ZodError
          /\ captured (snd (getMeeting w mid u rt)) = captured rt)
    /\ (Zod.parse (valid_url w) zListRecordsRes data = None ->
        forall fuel u,
          fst (listRecords (S fuel) w u rt) = Throw ZodError
          /\ captured (snd (listRecords (S fuel) w u rt)) = captured rt)
    /\ (Zod.parse (valid_url w) zRecordURLsRes data = None ->
        forall rid u,
          fst (getRecordURLs w rid u rt) = Throw ZodError
          /\ captured (snd (getRecordURLs w rid u rt)) = captured rt).
Proof.
  intros w rt data A NE. repeat split.
  1,2: unfold createMeeting, bind;
    rewrite (tmRequest_answered _ _ _ _ _ _ data A NE), zparse_cases;
    now rewrite H.
  1,2: unfold getMeeting, bind;
    rewrite (tmRequest_answered _ _ _ _ _ _ data A NE), zparse_cases;
    now rewrite H.
  3,4: unfold getRecordURLs, bind;
    rewrite (tmRequest_answered _ _ _ _ _ _ data A NE), zparse_cases;
    now rewrite H.
  all: unfold listRecords; cbn [listRecords_loop]; unfold bind, read_clock;
    cbn [clock_reads random_reads requests captured];
    rewrite (tmRequest_answered _ _ _ _ _ _ data), zparse_cases; trivial;
    now rewrite H.
Qed.

Lemma invalid_answer_raises_unreported_ZodError_witness :
  fst (getRecordURLs Scenario.unexpected_world "rec" "u1" fresh_runtime)
  = Throw ZodError
  /\ captured (snd (getRecordURLs Scenario.unexpected_world "rec" "u1"
                      fresh_runtime))
     = captured fresh_runtime.
Proof.
  exact (proj2 (proj2 (proj2
           (invalid_answer_raises_unreported_ZodError
              Scenario.unexpected_world fresh_runtime Scenario.unexpected
              (fun _ => http_200_answers Scenario.unexpected) eq_refl)))
           eq_refl "rec" "u1").
Defined.

(** [getMeeting] returns the first meeting of a validated answer and drops
    the others, reporting nothing. *)
Theorem getMeeting_returns_first :
  forall w mid u rt data res first others,
    (forall cfg, Spec.answers (axios w (List.length (requests rt)) cfg) data) ->
    Zod.parse (valid_url w) zGetMeetingRes data = Some res ->
    Js.prop res "meeting_info_list" = Js.Arr (first :: others) ->
    fst (getMeeting w mid u rt) = Ok first
    /\ captured (snd (getMeeting w mid u rt)) = captured rt.
Proof.
  intros w mid u rt data res first others A P L. unfold getMeeting, bind.
  rewrite (tmRequest_answered _ _ _ _ _ _ data A
             (parsed_not_empty _ _ _ _ _ P)).
  rewrite zparse_cases, P. unfold ret. cbn [fst snd]. rewrite L.
  split; reflexivity.
Qed.

Lemma getMeeting_returns_first_witness :
  fst (getMeeting Scenario.two_meetings_world "m1" "u1" fresh_runtime)
  = Ok (Scenario.meeting "m1")
  /\ captured (snd (getMeeting Scenario.two_meetings_world "m1" "u1"
                      fresh_runtime))
     = captured fresh_runtime.
Proof.
  exact (getMeeting_returns_first Scenario.two_meetings_world "m1" "u1"
           fresh_runtime Scenario.two_meetings Scenario.two_meetings
           (Scenario.meeting "m1") [Scenario.meeting "m2"]
           (fun _ => http_200_answers Scenario.two_meetings) eq_refl eq_refl).
Defined.

(** [createMeeting] returns the provider's answer as the schema parses it,
    and reports nothing. *)
Theorem createMeeting_returns_parsed_answer :
  forall w u s st et rt data res,
    (forall cfg, Spec.answers (axios w (List.length (requests rt)) cfg) data) ->
    Zod.parse (valid_url w) zCreateMeetingRes data = Some res ->
    fst (createMeeting w u s st et rt) = Ok res
    /\ captured (snd (createMeeting w u s st et rt)) = captured rt.
Proof.
  intros w u s st et rt data res A P. unfold createMeeting, bind.
  rewrite (tmRequest_answered _ _ _ _ _ _ data A
             (parsed_not_empty _ _ _ _ _ P)).
  rewrite zparse_cases, P. split; reflexivity.
Qed.

Lemma createMeeting_returns_parsed_answer_witness :
  fst (createMeeting Scenario.created_meeting_world "u1" "Weekly sync"
         1700000000 1700003600 fresh_runtime)
  = Ok Scenario.created_meeting
  /\ captured (snd (createMeeting Scenario.created_meeting_world "u1"
                      "Weekly sync" 1700000000 1700003600 fresh_runtime))
     = captured fresh_runtime.
Proof.
  exact (createMeeting_returns_parsed_answer Scenario.created_meeting_world
           "u1" "Weekly sync" 1700000000 1700003600 fresh_runtime
           Scenario.created_meeting Scenario.created_meeting
           (fun _ => http_200_answers Scenario.created_meeting) eq_refl).
Defined.

End Validation.

(** ** The query string and the signed text *)

Section QueryText.

Import TencentMeeting.





(** A newline moves freely between the path and the body of the signed
    text: the two requests below have the same signature, whatever the
    key. *)
Theorem sign_cannot_tell_path_from_body :
  forall id key m n t a b c,
    sign id key m n t (a ++ Js.newline ++ b) c
    = sign id key m n t a (b ++ Js.newline ++ c).
Proof.
  intros. unfold sign. do 4 f_equal. unfold tobeSigned.
  now rewrite !append_assoc.
Qed.

End QueryText.

(** ** [listRecords] against a provider whose page count varies *)

Section VaryingPages.

Import TencentMeeting.
Local Open Scope list_scope.

Variables (w : World) (u : string) (rt : Runtime).
Variables (total : nat -> Z) (pages : nat -> Js.value)
          (recs : nat -> list Js.value).

Hypothesis answered :
  forall k cfg,
    Spec.answers (axios w (List.length (requests rt) + k) cfg) (pages k).
Hypothesis reported_pages :
  forall k, Spec.records_page w (pages k) (total k) (recs k).

Lemma listRecords_turn_varying fuel acc k :
  listRecords_loop (S fuel) w u acc (Z.of_nat k + 1) (Spec.after_pages w u rt k)
  = if total k <=? Z.of_nat k + 1
    then (Ok (Some (acc ++ recs k)), Spec.after_pages w u rt (S k))
    else listRecords_loop fuel w u (acc ++ recs k) (Z.of_nat (S k) + 1)
           (Spec.after_pages w u rt (S k)).
Proof.
  cbn [listRecords_loop]. unfold bind at 1 2. unfold read_clock at 1 2.
  cbn [clock_reads random_reads requests captured Spec.after_pages].
  unfold bind at 1.
  match goal with
  | |- context [tmRequest w GET _ _ [] ?s] => set (st := s)
  end.
  destruct (reported_pages k) as (res & P & T & F).
  assert (A : forall cfg,
             Spec.answers (axios w (List.length (requests st)) cfg) (pages k)).
  { intros cfg. subst st. cbn [requests].
    rewrite length_app, length_map, length_seq. apply answered. }
  rewrite (tmRequest_answered _ _ _ _ _ _ (pages k) A
             (parsed_not_empty _ _ _ _ _ P)).
  unfold bind. rewrite zparse_cases, P, T. cbn [number_of].
  replace (Spec.request_config w GET "/v1/records"
             (records_query u (Date_now w (clock_reads rt + 3 * k))
                (Date_now w (S (clock_reads rt + 3 * k)))
                (Z.of_nat k + 1)) [] st)
    with (Spec.page_request w u rt k).
  2:{ unfold Spec.page_request.
      replace (clock_reads rt + 3 * k + 1)%nat
        with (S (clock_reads rt + 3 * k)) by lia.
      apply request_config_reads; subst st;
        cbn [clock_reads random_reads Spec.page_runtime]; lia. }
  replace (Spec.requested st (Spec.page_request w u rt k))
    with (Spec.after_pages w u rt (S k)).
  2:{ subst st. unfold Spec.requested, Spec.after_pages.
      cbn [clock_reads random_reads requests captured].
      rewrite seq_S, map_app, app_assoc. cbn [map Nat.add].
      f_equal; lia. }
  replace (array_concat acc
             (if Js.truthy (Js.prop res "record_meetings")
              then Js.prop res "record_meetings" else Js.Arr []))
    with (acc ++ recs k)
    by (destruct F as [F|[F ->]]; rewrite F; reflexivity).
  replace (Z.of_nat k + 1 + 1) with (Z.of_nat (S k) + 1) by lia.
  now destruct (total k <=? Z.of_nat k + 1).
Qed.

(** As long as every page announces a later one, the loop goes on. *)
Lemma listRecords_goes_on j :
  forall fuel acc k,
    (forall i, (k <= i < k + j)%nat -> Z.of_nat i + 1 < total i) ->
    listRecords_loop (j + fuel) w u acc (Z.of_nat k + 1)
      (Spec.after_pages w u rt k)
    = listRecords_loop fuel w u (acc ++ List.concat (map recs (seq k j)))
        (Z.of_nat (k + j) + 1) (Spec.after_pages w u rt (k + j)).
Proof.
  induction j as [|j IH]; intros fuel acc k H.
  - cbn [Nat.add seq map List.concat]. now rewrite app_nil_r, Nat.add_0_r.
  - cbn [Nat.add]. rewrite listRecords_turn_varying.
    destruct (Z.leb_spec (total k) (Z.of_nat k + 1)) as [L|_].
    + specialize (H k). lia.
    + rewrite IH by (intros i Hi; apply H; lia).
      cbn [seq map List.concat]. rewrite <- app_assoc.
      now replace (S k + j)%nat with (k + S j)%nat by lia.
Qed.

End VaryingPages.

(** [listRecords] stops at the first page whose announced [total_page] does
    not exceed its own number: it has then made one request per page up to
    that one, returns their records in order and has reported nothing. *)
Theorem listRecords_stops_at_first_last_page :
  forall w u rt total pages recs n fuel,
    (forall k cfg,
        Spec.answers (TencentMeeting.axios w
                        (List.length (TencentMeeting.requests rt) + k) cfg)
                     (pages k)) ->
    (forall k, Spec.records_page w (pages k) (total k) (recs k)) ->
    (forall i, (i < n)%nat -> Z.of_nat i + 1 < total i) ->
    total n <= Z.of_nat n + 1 ->
    (n < fuel)%nat ->
    TencentMeeting.listRecords fuel w u rt
    = (TencentMeeting.Ok (Some (List.concat (map recs (seq 0 (S n))))),
       Spec.after_pages w u rt (S n)).
Proof.
  intros w u rt total pages recs n fuel A P Before Last F.
  unfold TencentMeeting.listRecords.
  rewrite <- (after_pages_start w u rt) at 1.
  change 1 with (Z.of_nat 0 + 1).
  replace fuel with (n + S (fuel - S n))%nat by lia.
  rewrite (listRecords_goes_on w u rt total pages recs A P n)
    by (intros i Hi; apply Before; lia).
  cbn [Nat.add]. rewrite (listRecords_turn_varying w u rt total pages recs A P).
  destruct (Z.leb_spec (total n) (Z.of_nat n + 1)) as [_|L]; [|lia].
  rewrite seq_S, map_app, concat_app. cbn [map List.concat Nat.add app].
  now rewrite app_nil_r.
Qed.

(** When every page announces a later one, [listRecords] never returns:
    whatever the number of iterations allowed, it uses them all, one
    request each, and is still looping. *)
Theorem listRecords_never_returns_on_growing_total :
  forall w u rt total pages recs fuel,
    (forall k cfg,
        Spec.answers (TencentMeeting.axios w
                        (List.length (TencentMeeting.requests rt) + k) cfg)
                     (pages k)) ->
    (forall k, Spec.records_page w (pages k) (total k) (recs k)) ->
    (forall i, Z.of_nat i + 1 < total i) ->
    TencentMeeting.listRecords fuel w u rt
    = (TencentMeeting.Ok None, Spec.after_pages w u rt fuel).
Proof.
  intros w u rt total pages recs fuel A P Grow.
  unfold TencentMeeting.listRecords.
  rewrite <- (after_pages_start w u rt) at 1.
  change 1 with (Z.of_nat 0 + 1).
  replace fuel with (fuel + 0)%nat at 1 by lia.
  rewrite (listRecords_goes_on w u rt total pages recs A P fuel)
    by (intros i _; apply Grow).
  reflexivity.
Qed.

Lemma listRecords_stops_at_first_last_page_witness :
  TencentMeeting.listRecords 2 Scenario.two_pages_world "u 1"
    TencentMeeting.fresh_runtime
  = (TencentMeeting.Ok
       (Some (List.concat (map Scenario.two_pages_recs (seq 0 2)))),
     Spec.after_pages Scenario.two_pages_world "u 1"
       TencentMeeting.fresh_runtime 2).
Proof.
  apply (listRecords_stops_at_first_last_page Scenario.two_pages_world "u 1"
           TencentMeeting.fresh_runtime (fun _ => 2) Scenario.two_pages
           Scenario.two_pages_recs 1%nat 2%nat
           (fun k _ => http_200_answers (Scenario.two_pages k))
           two_pages_reported).
  - intros i Hi. assert (i = 0%nat) as -> by lia. reflexivity.
  - cbn. lia.
  - lia.
Defined.

Lemma endless_pages_reported k :
  Spec.records_page Scenario.endless_world (Scenario.endless_page k)
    (Z.of_nat k + 2) [Scenario.record "r"].
Proof.
  exists (Scenario.endless_page k). split; [reflexivity|].
  split; [reflexivity|]. left. reflexivity.
Defined.

Lemma listRecords_never_returns_on_growing_total_witness :
  TencentMeeting.listRecords 3 Scenario.endless_world "u1"
    TencentMeeting.fresh_runtime
  = (TencentMeeting.Ok None,
     Spec.after_pages Scenario.endless_world "u1"
       TencentMeeting.fresh_runtime 3).
Proof.
  apply (listRecords_never_returns_on_growing_total Scenario.endless_world
           "u1" TencentMeeting.fresh_runtime (fun k => Z.of_nat k + 2)
           Scenario.endless_page (fun _ => [Scenario.record "r"]) 3%nat
           (fun k _ => http_200_answers (Scenario.endless_page k))
           endless_pages_reported).
  intros i. lia.
Defined.

(** ** More on the cascade *)

Section CascadeRuns.

Import Group GroupSpec.
Local Open Scope list_scope.

Lemma others_kept g P r : others g r = true -> kept g P r = true.
Proof. unfold kept. now intros ->. Qed.

Lemma table_ok_others g T0 T P started :
  table_ok g T0 T P started ->
  filter (others g) T = filter (others g) T0 /\ incl T T0.
Proof.
  destruct started; cbn [table_ok].
  - intros (-> & _ & _). split.
    + rewrite filter_twice. apply filter_ext. intros r.
      destruct (others g r) eqn:E; [|apply andb_false_r].
      now rewrite (others_kept g P r E).
    + intros r Hr. now apply filter_In in Hr.
  - intros (-> & _). split; [reflexivity | apply incl_refl].
Qed.

(** While the hook runs, and whatever the order of completion, no row of
    another group leaves [group_users] or [transcripts], no row appears,
    and the table of groups is as it was. *)
Theorem cascadeDestroy_never_touches_other_groups :
  forall db g,
    NoDup (map key (groupUsers db)) ->
    NoDup (map key (transcripts db)) ->
    forall schedule h,
      run g schedule (cascadeDestroy_start db) = Some h ->
      groups (h_db h) = groups db
      /\ filter (others g) (groupUsers (h_db h))
         = filter (others g) (groupUsers db)
      /\ filter (others g) (transcripts (h_db h))
         = filter (others g) (transcripts db)
      /\ incl (groupUsers (h_db h)) (groupUsers db)
      /\ incl (transcripts (h_db h)) (transcripts db).
Proof.
  intros db g KU KT schedule h E.
  destruct (run_ok g db KU KT schedule _ _ (start_ok g db) E)
    as (G & U & T & _).
  apply table_ok_others in U as [U1 U2].
  apply table_ok_others in T as [T1 T2].
  repeat split; assumption.
Qed.

Lemma cascadeDestroy_never_touches_other_groups_witness :
  filter (others "g1")
    (groupUsers
       {| groups := groups GroupScenario.db;
          groupUsers := [ {| key := "gu2"; groupId := "g2" |};
                          {| key := "gu3"; groupId := "g1" |} ];
          transcripts := transcripts GroupScenario.db |})
  = filter (others "g1") (groupUsers GroupScenario.db).
Proof.
  exact (proj1 (proj2
           (cascadeDestroy_never_touches_other_groups GroupScenario.db "g1"
              (proj1 scenario_keys) (proj2 scenario_keys)
              [Resume; Settle 0]
              {| h_db := {| groups := groups GroupScenario.db;
                            groupUsers := [ {| key := "gu2"; groupId := "g2" |};
                                            {| key := "gu3"; groupId := "g1" |} ];
                            transcripts := transcripts GroupScenario.db |};
                 h_at := AwaitTranscripts;
                 h_inflight := [DestroyGroupUser
                                  {| key := "gu3"; groupId := "g1" |}] |}
              eq_refl))).
Defined.

Lemma nothing_pending l :
  pending_groupUsers l = [] -> pending_transcripts l = [] -> l = [].
Proof. destruct l as [|[gu|t] l]; trivial; discriminate. Qed.

Lemma drop_nth_length {A} (i : nat) (l : list A) (x : A) :
  nth_error l i = Some x -> List.length l = S (List.length (drop_nth i l)).
Proof.
  intros E. destruct (settle_splits _ _ _ E) as (l1 & l2 & -> & ->).
  rewrite !length_app. cbn [List.length]. lia.
Qed.

Lemma step_counts g db c h h' :
  hook_ok g db h -> step g c h = Some h' ->
  turns_left g h = S (turns_left g h').
Proof.
  intros (_ & U & T & R). destruct h as [d p l].
  cbn [h_db h_at h_inflight] in *. destruct c as [|i]; cbn [step].
  - unfold resume; cbn [h_db h_at h_inflight].
    destruct p; try discriminate.
    + intros [= <-]. unfold turns_left; cbn [h_db h_at h_inflight].
      rewrite length_app, length_map. lia.
    + intros [= <-]. unfold turns_left; cbn [h_db h_at h_inflight].
      rewrite length_app, length_map. lia.
    + destruct l; [|discriminate]. now intros [= <-].
  - unfold settle; cbn [h_db h_at h_inflight].
    destruct (nth_error l i) as [r|] eqn:E; [|discriminate]. intros [= <-].
    pose proof (drop_nth_length _ _ _ E) as L.
    destruct p; cbn [groupUsers_started transcripts_started table_ok] in *.
    + destruct U as [_ PU], T as [_ PT].
      rewrite (nothing_pending l PU PT) in E. now destruct i.
    + destruct T as [_ PT].
      unfold turns_left; cbn [h_db h_at h_inflight].
      destruct r as [gu|t]; cbn [complete transcripts]; [lia|].
      destruct (settle_splits _ _ _ E) as (l1 & l2 & -> & _).
      rewrite pending_transcripts_app in PT.
      now destruct (pending_transcripts l1).
    + unfold turns_left; cbn [h_db h_at h_inflight]. lia.
    + rewrite (R eq_refl) in E. now destruct i.
Qed.

Lemma run_counts g db schedule :
  forall h h',
    NoDup (map key (groupUsers db)) -> NoDup (map key (transcripts db)) ->
    hook_ok g db h -> run g schedule h = Some h' ->
    turns_left g h = (List.length schedule + turns_left g h')%nat.
Proof.
  induction schedule as [|c rest IH]; intros h h' KU KT OK; cbn [run].
  - now intros [= <-].
  - destruct (step g c h) as [h1|] eqn:E; [|discriminate]. intros Rn.
    rewrite (step_counts g db c h h1 OK E).
    assert (OK1 : hook_ok g db h1).
    { destruct c; cbn [step] in E.
      - now apply (resume_ok g db KU KT h).
      - now apply (settle_ok g db KU KT i h). }
    rewrite (IH h1 h' KU KT OK1 Rn). reflexivity.
Qed.

(** Whatever the order in which the removals complete, the hook returns
    after exactly N + M + 3 turns of the event loop (its three resumptions
    and one completion per dependent row), and until it has returned some
    turn is always possible: it neither blocks nor goes on for ever. *)
Theorem cascadeDestroy_returns_after_its_turns :
  forall db g,
    NoDup (map key (groupUsers db)) ->
    NoDup (map key (transcripts db)) ->
    let N := List.length (findAll g (groupUsers db)) in
    let M := List.length (findAll g (transcripts db)) in
    forall schedule h,
      run g schedule (cascadeDestroy_start db) = Some h ->
      (List.length schedule <= N + M + 3)%nat
      /\ (h_at h = Returned <-> List.length schedule = (N + M + 3)%nat)
      /\ (h_at h <> Returned -> exists c h', step g c h = Some h').
Proof.
  intros db g KU KT N M schedule h E.
  pose proof (run_counts g db schedule _ _ KU KT (start_ok g db) E) as C.
  unfold turns_left at 1 in C.
  cbn [cascadeDestroy_start h_at h_db h_inflight List.length] in C.
  fold N M in C.
  split; [lia|]. split.
  - split.
    + intros A. unfold turns_left in C. rewrite A in C. lia.
    + intros L. unfold turns_left in C.
      destruct (h_at h); trivial; lia.
  - intros NR. destruct h as [d p l]. cbn [h_at] in NR.
    destruct p; try contradiction.
    + exists Resume. eexists. reflexivity.
    + exists Resume. eexists. reflexivity.
    + destruct l as [|r l].
      * exists Resume. eexists. reflexivity.
      * exists (Settle 0). eexists. reflexivity.
Qed.

Lemma cascadeDestroy_returns_after_its_turns_witness :
  (List.length GroupScenario.interleaved <= 2 + 1 + 3)%nat.
Proof.
  exact (proj1
           (cascadeDestroy_returns_after_its_turns GroupScenario.db "g1"
              (proj1 scenario_keys) (proj2 scenario_keys)
              GroupScenario.interleaved
              {| h_db := {| groups := groups GroupScenario.db;
                            groupUsers :=
                              filter (others "g1")
                                     (groupUsers GroupScenario.db);
                            transcripts :=
                              filter (others "g1")
                                     (transcripts GroupScenario.db) |};
                 h_at := Returned; h_inflight := [] |}
              eq_refl)).
Defined.

End CascadeRuns.

(** ** The verification token *)

Section Token.

Import Decimal.

Lemma of_uint_acc_value (d : uint) :
  forall acc, Z.pos (Pos.of_uint_acc d acc) = Spec.digits_value d (Z.pos acc).
Proof.
  induction d; intros acc; cbn [Pos.of_uint_acc Spec.digits_value];
    rewrite ?IHd; f_equal; lia.
Qed.

Lemma digit_cases (a : Z) (P : (uint -> uint) -> Prop) :
  0 <= a <= 9 ->
  (a = 0 -> P D0) -> (a = 1 -> P D1) -> (a = 2 -> P D2) -> (a = 3 -> P D3) ->
  (a = 4 -> P D4) -> (a = 5 -> P D5) -> (a = 6 -> P D6) -> (a = 7 -> P D7) ->
  (a = 8 -> P D8) -> (a = 9 -> P D9) ->
  P (Spec.digit a).
Proof.
  intros R H0 H1 H2 H3 H4 H5 H6 H7 H8 H9.
  assert (E : Spec.digit a = fun d => Spec.digit a d) by reflexivity.
  rewrite E. unfold Spec.digit.
  repeat (match goal with
          | |- context [?x =? ?y] => destruct (Z.eqb_spec x y)
          end); auto.
  apply H9. lia.
Qed.

Lemma digit_value a d acc :
  0 <= a <= 9 ->
  Spec.digits_value (Spec.digit a d) acc = Spec.digits_value d (a + 10 * acc).
Proof.
  intros R.
  apply (digit_cases a (fun f => Spec.digits_value (f d) acc
                                 = Spec.digits_value d (a + 10 * acc)) R);
    intros ->; reflexivity.
Qed.

Lemma digit_string a d :
  0 <= a <= 9 ->
  exists c,
    NilEmpty.string_of_uint (Spec.digit a d)
    = String c (NilEmpty.string_of_uint d)
    /\ Spec.is_digit c = true
    /\ (a <> 0 -> c <> "0"%char).
Proof.
  intros R.
  apply (digit_cases a (fun f => exists c,
           NilEmpty.string_of_uint (f d) = String c (NilEmpty.string_of_uint d)
           /\ Spec.is_digit c = true /\ (a <> 0 -> c <> "0"%char)) R);
    intros ->; eexists; (split; [reflexivity|]); split;
    try reflexivity; try discriminate; intros N; now elim N.
Qed.

Lemma leading_digit a d :
  1 <= a <= 9 ->
  unorm (Spec.digit a d) = Spec.digit a d
  /\ Spec.digit a d <> Nil
  /\ exists p, Pos.of_uint (Spec.digit a d) = N.pos p
               /\ Z.pos p = Spec.digits_value d a.
Proof.
  intros R.
  apply (digit_cases a (fun f => unorm (f d) = f d /\ f d <> Nil
           /\ exists p, Pos.of_uint (f d) = N.pos p
                        /\ Z.pos p = Spec.digits_value d a)); try lia;
    intros ->; (split; [reflexivity|]); (split; [discriminate|]);
    eexists; (split; [reflexivity|]); apply of_uint_acc_value.
Qed.

Lemma leading_range (r : Z) :
  100000 <= r <= 999999 -> 1 <= r / 100000 <= 9.
Proof.
  intros R.
  assert (r / 100000 < 10) by (apply Z.div_lt_upper_bound; lia).
  assert (1 <= r / 100000) by (apply Z.div_le_lower_bound; lia).
  lia.
Qed.

(** The decimal text of a number of six digits. *)
Lemma decimal_six_digits (r : Z) :
  100000 <= r <= 999999 ->
  Text.decimal r = NilEmpty.string_of_uint (Spec.six_digits r).
Proof.
  intros R. pose proof (leading_range r R) as R5.
  assert (V : exists p, Pos.of_uint (Spec.six_digits r) = N.pos p
                        /\ Z.pos p = r).
  { unfold Spec.six_digits.
    destruct (leading_digit (r / 100000)
                (Spec.digit (r / 10000 mod 10) (Spec.digit (r / 1000 mod 10)
                   (Spec.digit (r / 100 mod 10) (Spec.digit (r / 10 mod 10)
                      (Spec.digit (r mod 10) Nil))))) R5)
      as (_ & _ & p & E & V).
    exists p. split; [exact E|].
    rewrite !digit_value in V
      by (match goal with
          | |- 0 <= ?x mod 10 <= 9 => pose proof (Z.mod_pos_bound x 10); lia
          end).
    cbn [Spec.digits_value] in V. rewrite V.
    pose proof (Z.div_mod r 10 ltac:(lia)) as H0.
    assert (H1 : r / 10 = 10 * (r / 100) + (r / 10) mod 10)
      by (replace (r / 100) with (r / 10 / 10)
            by (rewrite Z.div_div by lia; reflexivity);
          apply Z.div_mod; lia).
    assert (H2 : r / 100 = 10 * (r / 1000) + (r / 100) mod 10)
      by (replace (r / 1000) with (r / 100 / 10)
            by (rewrite Z.div_div by lia; reflexivity);
          apply Z.div_mod; lia).
    assert (H3 : r / 1000 = 10 * (r / 10000) + (r / 1000) mod 10)
      by (replace (r / 10000) with (r / 1000 / 10)
            by (rewrite Z.div_div by lia; reflexivity);
          apply Z.div_mod; lia).
    assert (H4 : r / 10000 = 10 * (r / 100000) + (r / 10000) mod 10)
      by (replace (r / 100000) with (r / 10000 / 10)
            by (rewrite Z.div_div by lia; reflexivity);
          apply Z.div_mod; lia).
    lia. }
  assert (U : unorm (Spec.six_digits r) = Spec.six_digits r
              /\ Spec.six_digits r <> Nil)
    by (split; apply (leading_digit (r / 100000) _ R5)).
  destruct U as [U NN]. destruct V as (p & E & Hr).
  pose proof (DecimalPos.Unsigned.to_of (Spec.six_digits r)) as T.
  rewrite E, U in T. cbn [N.to_uint] in T.
  remember (Spec.six_digits r) as u eqn:Eu. clear Eu.
  unfold Text.decimal. rewrite <- Hr. cbn [Z.to_int]. rewrite T.
  cbn [NilZero.string_of_int]. unfold NilZero.string_of_uint.
  destruct u; try reflexivity. now elim NN.
Qed.

(** The verification token has exactly six characters, all of them decimal
    digits and the first not a zero, whenever the random source keeps to
    the bounds it was given; and the token determines the number drawn. *)
Theorem generateVerificationToken_six_digits :
  forall drawn,
    100000 <= drawn <= 999999 ->
    String.length (Auth.generateVerificationToken drawn) = 6%nat
    /\ Spec.all_chars Spec.is_digit (Auth.generateVerificationToken drawn) = true
    /\ (exists c rest, Auth.generateVerificationToken drawn = String c rest
                       /\ c <> "0"%char)
    /\ (forall other, Auth.generateVerificationToken other
                      = Auth.generateVerificationToken drawn -> other = drawn).
Proof.
  intros r R. unfold Auth.generateVerificationToken.
  split; [|split; [|split]]; [| | |intros other; apply decimal_inj].
  all: rewrite (decimal_six_digits r R); unfold Spec.six_digits.
  all: assert (R5 : 0 <= r / 100000 <= 9)
         by (pose proof (leading_range r R); lia).
  all: assert (N5 : r / 100000 <> 0)
         by (pose proof (leading_range r R); lia).
  all: destruct (digit_string (r / 100000)
                   (Spec.digit (r / 10000 mod 10) (Spec.digit (r / 1000 mod 10)
                      (Spec.digit (r / 100 mod 10) (Spec.digit (r / 10 mod 10)
                         (Spec.digit (r mod 10) Nil))))) R5)
         as (c5 & -> & D5 & Z5).
  3: { exists c5; eexists; split; [reflexivity | now apply Z5]. }
  all: destruct (digit_string (r / 10000 mod 10)
                   (Spec.digit (r / 1000 mod 10) (Spec.digit (r / 100 mod 10)
                      (Spec.digit (r / 10 mod 10) (Spec.digit (r mod 10) Nil))))
                   ltac:(pose proof (Z.mod_pos_bound (r / 10000) 10); lia))
         as (c4 & -> & D4 & _).
  all: destruct (digit_string (r / 1000 mod 10)
                   (Spec.digit (r / 100 mod 10)
                      (Spec.digit (r / 10 mod 10) (Spec.digit (r mod 10) Nil)))
                   ltac:(pose proof (Z.mod_pos_bound (r / 1000) 10); lia))
         as (c3 & -> & D3 & _).
  all: destruct (digit_string (r / 100 mod 10)
                   (Spec.digit (r / 10 mod 10) (Spec.digit (r mod 10) Nil))
                   ltac:(pose proof (Z.mod_pos_bound (r / 100) 10); lia))
         as (c2 & -> & D2 & _).
  all: destruct (digit_string (r / 10 mod 10) (Spec.digit (r mod 10) Nil)
                   ltac:(pose proof (Z.mod_pos_bound (r / 10) 10); lia))
         as (c1 & -> & D1 & _).
  all: destruct (digit_string (r mod 10) Nil
                   ltac:(pose proof (Z.mod_pos_bound r 10); lia))
         as (c0 & -> & D0' & _).
  - reflexivity.
  - cbn [Spec.all_chars NilEmpty.string_of_uint].
    now rewrite D5, D4, D3, D2, D1, D0'.
Qed.

Lemma generateVerificationToken_six_digits_witness :
  String.length (Auth.generateVerificationToken 100000) = 6%nat
  /\ String.length (Auth.generateVerificationToken 999999) = 6%nat.
Proof.
  split.
  - apply (generateVerificationToken_six_digits 100000). lia.
  - apply (generateVerificationToken_six_digits 999999). lia.
Defined.

End Token.

(** ** The characters of a signature *)

Section SignatureText.

Import TencentMeeting.

Lemma base64_char_safe (i : Z) :
  0 <= i <= 61 -> Spec.header_safe (Text.base64_char i) = true.
Proof.
  intros R. unfold Text.base64_char.
  assert (L : (Z.to_nat i < 62)%nat) by lia.
  revert L. generalize (Z.to_nat i). intros n L.
  do 62 (destruct n as [|n]; [reflexivity|]). lia.
Qed.

Lemma hex_digit_code (d : Z) :
  0 <= d <= 15 ->
  Spec.hex_code (Z.of_N (N_of_ascii (Text.hex_digit false d))).
Proof.
  intros R. unfold Spec.hex_code.
  assert (d = 0 \/ d = 1 \/ d = 2 \/ d = 3 \/ d = 4 \/ d = 5 \/ d = 6 \/ d = 7
          \/ d = 8 \/ d = 9 \/ d = 10 \/ d = 11 \/ d = 12 \/ d = 13 \/ d = 14
          \/ d = 15) as C by lia.
  repeat (destruct C as [->|C]; [cbn; lia|]). subst d. cbn. lia.
Qed.

Lemma hex_codes (l : list Z) :
  Forall (fun b => 0 <= b <= 255) l ->
  Forall Spec.hex_code (Text.bytes_of_string (Text.hex l)).
Proof.
  unfold Text.hex, Text.bytes_of_string.
  induction 1 as [|b l Hb Hl IH]; [constructor|].
  assert (D1 : 0 <= b / 16 <= 15).
  { assert (b / 16 < 16) by (apply Z.div_lt_upper_bound; lia).
    assert (0 <= b / 16) by (apply Z.div_pos; lia). lia. }
  assert (D2 : 0 <= b mod 16 <= 15)
    by (pose proof (Z.mod_pos_bound b 16); lia).
  cbn [map String.concat].
  destruct (map (Text.hex_byte false) l) eqn:E.
  - unfold Text.hex_byte. cbn [list_ascii_of_string map].
    apply Forall_cons; [now apply hex_digit_code|].
    apply Forall_cons; [now apply hex_digit_code|]. apply Forall_nil.
  - unfold Text.hex_byte at 1. cbn [append list_ascii_of_string map].
    apply Forall_cons; [now apply hex_digit_code|].
    apply Forall_cons; [now apply hex_digit_code|]. exact IH.
Qed.

Lemma be_bytes_range (n : nat) (x : Z) :
  Forall (fun b => 0 <= b <= 255) (Sha256.be_bytes n x).
Proof.
  induction n as [|n IH]; cbn [Sha256.be_bytes]; constructor; trivial.
  pose proof (Z.mod_pos_bound (x / 256 ^ Z.of_nat n) 256). lia.
Qed.

Lemma regs_bytes_range (h : Sha256.regs) :
  Forall (fun b => 0 <= b <= 255) (Sha256.regs_bytes h).
Proof.
  unfold Sha256.regs_bytes. repeat (apply Forall_app; split);
    apply be_bytes_range.
Qed.

Lemma sextets (a b c : Z) :
  Spec.hex_code a -> Spec.hex_code b -> Spec.hex_code c ->
  0 <= a / 4 <= 61 /\ 0 <= a mod 4 * 16 <= 61
  /\ 0 <= a mod 4 * 16 + b / 16 <= 61
  /\ 0 <= b mod 16 * 4 <= 61
  /\ 0 <= b mod 16 * 4 + c / 64 <= 61
  /\ 0 <= c mod 64 <= 61.
Proof.
  unfold Spec.hex_code. intros Ha Hb Hc.
  pose proof (Z.div_mod a 4 ltac:(lia)). pose proof (Z.mod_pos_bound a 4 ltac:(lia)).
  pose proof (Z.div_mod b 16 ltac:(lia)). pose proof (Z.mod_pos_bound b 16 ltac:(lia)).
  pose proof (Z.div_mod c 64 ltac:(lia)). pose proof (Z.mod_pos_bound c 64 ltac:(lia)).
  lia.
Qed.

Lemma base64_of_hex_safe_steps (l : list Z) :
  Forall Spec.hex_code l ->
  let P := fun x : list Z =>
    Spec.all_chars Spec.header_safe (Text.base64 x) = true in
  P l /\ (forall a, Spec.hex_code a -> P (a :: l))
  /\ (forall a b, Spec.hex_code a -> Spec.hex_code b -> P (a :: b :: l)).
Proof.
  induction 1 as [|c l Hc Hl (IH0 & IH1 & IH2)]; cbv zeta.
  - split; [reflexivity|]. split.
    + intros a Ha. destruct (sextets a a a Ha Ha Ha) as (S1 & S2 & _).
      cbn [Text.base64 Spec.all_chars].
      now rewrite !base64_char_safe.
    + intros a b Ha Hb.
      destruct (sextets a b b Ha Hb Hb) as (S1 & _ & S3 & S4 & _).
      cbn [Text.base64 Spec.all_chars].
      now rewrite !base64_char_safe.
  - split; [now apply IH1|]. split; [intros a Ha; now apply IH2|].
    intros a b Ha Hb.
    destruct (sextets a b c Ha Hb Hc) as (S1 & _ & S3 & _ & S5 & S6).
    cbn [Text.base64 Spec.all_chars].
    rewrite !base64_char_safe by assumption. exact IH0.
Qed.

(** A signature is made of letters, digits and the padding sign only, so
    it can stand in a header as it is; in particular neither [+] nor [/]
    ever occurs in it. *)
Theorem sign_is_header_safe :
  forall id key m n t u b,
    Spec.all_chars Spec.header_safe (sign id key m n t u b) = true
    /\ String.length (sign id key m n t u b) = 88%nat.
Proof.
  intros. split; [|apply sign_length].
  unfold sign, Sha256.hmac_sha256.
  exact (proj1 (base64_of_hex_safe_steps _
                  (hex_codes _ (regs_bytes_range _)))).
Qed.

End SignatureText.

(** ** What a change of one input does to the signature *)

Section SignatureSensitivity.

Import TencentMeeting.

Lemma byte_code (b : Z) :
  0 <= b <= 255 -> Z.of_N (N_of_ascii (ascii_of_N (Z.to_N b))) = b.
Proof.
  intros R. rewrite N_ascii_embedding by lia. lia.
Qed.

Lemma string_of_bytes_of_string (s : string) :
  Text.string_of_bytes (Text.bytes_of_string s) = s.
Proof.
  unfold Text.string_of_bytes, Text.bytes_of_string.
  induction s as [|c s IH]; [reflexivity|].
  cbn [list_ascii_of_string map string_of_list_ascii].
  now rewrite N2Z.id, ascii_N_embedding, IH.
Qed.

Lemma hex_cons (b : Z) (l : list Z) :
  Text.hex (b :: l)
  = String (Text.hex_digit false (b / 16))
      (String (Text.hex_digit false (b mod 16)) (Text.hex l)).
Proof.
  unfold Text.hex. cbn [map String.concat].
  destruct (map (Text.hex_byte false) l) eqn:E; reflexivity.
Qed.

Lemma hex_value_digit (d : Z) :
  0 <= d <= 15 -> Spec.hex_value (Text.hex_digit false d) = d.
Proof.
  intros R.
  assert (d = 0 \/ d = 1 \/ d = 2 \/ d = 3 \/ d = 4 \/ d = 5 \/ d = 6 \/ d = 7
          \/ d = 8 \/ d = 9 \/ d = 10 \/ d = 11 \/ d = 12 \/ d = 13 \/ d = 14
          \/ d = 15) as C by lia.
  repeat (destruct C as [->|C]; [reflexivity|]). now subst d.
Qed.

Lemma unhex_hex (l : list Z) :
  Forall (fun b => 0 <= b <= 255) l -> Spec.unhex (Text.hex l) = l.
Proof.
  induction 1 as [|b l Hb Hl IH]; [reflexivity|].
  rewrite hex_cons. cbn [Spec.unhex].
  rewrite !hex_value_digit, IH.
  - f_equal. Z.to_euclidean_division_equations. lia.
  - Z.to_euclidean_division_equations. lia.
  - Z.to_euclidean_division_equations. lia.
Qed.

Lemma base64_index_char (i : Z) :
  0 <= i <= 63 -> Spec.base64_index (Text.base64_char i) = i.
Proof.
  intros R. unfold Text.base64_char.
  rewrite <- (Z2Nat.id i) at 2 by lia.
  assert (L : (Z.to_nat i < 64)%nat) by lia.
  revert L. generalize (Z.to_nat i). intros n L.
  do 64 (destruct n as [|n]; [reflexivity|]). lia.
Qed.

Lemma sextets_of_bytes (a b c : Z) :
  0 <= a <= 255 -> 0 <= b <= 255 -> 0 <= c <= 255 ->
  0 <= a / 4 <= 63 /\ 0 <= a mod 4 * 16 <= 63
  /\ 0 <= a mod 4 * 16 + b / 16 <= 63
  /\ 0 <= b mod 16 * 4 <= 63
  /\ 0 <= b mod 16 * 4 + c / 64 <= 63
  /\ 0 <= c mod 64 <= 63.
Proof.
  intros Ha Hb Hc. Z.to_euclidean_division_equations. lia.
Qed.

Ltac sextet_indices a b c Ha Hb Hc :=
  destruct (sextets_of_bytes a b c Ha Hb Hc) as (S1 & S2 & S3 & S4 & S5 & S6);
  cbn [Text.base64 Spec.unbase64];
  rewrite ?base64_index_char by assumption.

Lemma unbase64_base64_steps (l : list Z) :
  Forall (fun b => 0 <= b <= 255) l ->
  let P := fun x : list Z => Spec.unbase64 (Text.base64 x) = x in
  P l /\ (forall a, 0 <= a <= 255 -> P (a :: l))
  /\ (forall a b, 0 <= a <= 255 -> 0 <= b <= 255 -> P (a :: b :: l)).
Proof.
  induction 1 as [|c l Hc Hl (IH0 & IH1 & IH2)]; cbv zeta.
  - split; [reflexivity|]. split.
    + intros a Ha. sextet_indices a a a Ha Ha Ha.
      change (Spec.base64_index "=") with 64. cbn [Z.eqb Pos.eqb].
      f_equal. Z.to_euclidean_division_equations. lia.
    + intros a b Ha Hb. sextet_indices a b b Ha Hb Hb.
      change (Spec.base64_index "=") with 64.
      destruct (Z.eqb_spec (b mod 16 * 4) 64) as [E|_]; [lia|].
      cbn [Z.eqb Pos.eqb].
      f_equal; [|f_equal]; Z.to_euclidean_division_equations; lia.
  - split; [now apply IH1|]. split; [intros a Ha; now apply IH2|].
    intros a b Ha Hb. sextet_indices a b c Ha Hb Hc.
    destruct (Z.eqb_spec (b mod 16 * 4 + c / 64) 64) as [E|_]; [lia|].
    destruct (Z.eqb_spec (c mod 64) 64) as [E|_]; [lia|].
    cbv zeta in IH0. rewrite IH0.
    f_equal; [|f_equal; [|f_equal]]; Z.to_euclidean_division_equations; lia.
Qed.

Lemma unbase64_base64 (l : list Z) :
  Forall (fun b => 0 <= b <= 255) l -> Spec.unbase64 (Text.base64 l) = l.
Proof. intros H. apply (unbase64_base64_steps l H). Qed.

Lemma hash_of_signature_sign id key m n t u b :
  Spec.hash_of_signature (sign id key m n t u b)
  = Sha256.hmac_sha256 (Text.bytes_of_string key)
      (Text.bytes_of_string (tobeSigned id m n t u b)).
Proof.
  unfold Spec.hash_of_signature, sign, Sha256.hmac_sha256.
  rewrite unbase64_base64.
  - rewrite string_of_bytes_of_string. apply unhex_hex, regs_bytes_range.
  - eapply Forall_impl; [|apply hex_codes, regs_bytes_range].
    unfold Spec.hex_code. intros x Hx. cbv beta in Hx. lia.
Qed.

(** ASCII text is its own UTF-8 encoding. *)
Lemma utf8_units_app (s : string) (x : list Z) :
  Spec.all_chars Spec.is_ascii s = true ->
  Utf16.utf8 (Utf16.units s ++ x) = s ++ Utf16.utf8 x.
Proof.
  unfold Utf16.units, Text.bytes_of_string.
  induction s as [|c s IH]; [reflexivity|].
  cbn [Spec.all_chars list_ascii_of_string map app].
  intros H. apply andb_true_iff in H as [A R].
  unfold Spec.is_ascii in A. apply Z.ltb_lt in A.
  pose proof (N2Z.is_nonneg (N_of_ascii c)) as P.
  cbn [Utf16.utf8].
  assert (Hh : Utf16.is_high (Z.of_N (N_of_ascii c)) = false).
  { unfold Utf16.is_high. apply andb_false_iff. left. apply Z.leb_gt. lia. }
  assert (Hl : Utf16.is_low (Z.of_N (N_of_ascii c)) = false).
  { unfold Utf16.is_low. apply andb_false_iff. left. apply Z.leb_gt. lia. }
  rewrite Hh, Hl. unfold Utf16.encode_point.
  destruct (Z.ltb_spec (Z.of_N (N_of_ascii c)) 128) as [_|G]; [|lia].
  unfold Text.string_of_bytes. cbn [map string_of_list_ascii append].
  now rewrite N2Z.id, ascii_N_embedding, IH.
Qed.

Lemma utf8_units (s : string) :
  Spec.all_chars Spec.is_ascii s = true -> Utf16.utf8 (Utf16.units s) = s.
Proof.
  intros H. rewrite <- (app_nil_r (Utf16.units s)), utf8_units_app by exact H.
  cbn [Utf16.utf8]. clear. induction s; cbn; congruence.
Qed.

Lemma uint_ascii (d : Decimal.uint) :
  Spec.all_chars Spec.is_ascii (NilEmpty.string_of_uint d) = true.
Proof. induction d; cbn; now rewrite ?IHd. Qed.

Lemma decimal_ascii (n : Z) :
  Spec.all_chars Spec.is_ascii (Text.decimal n) = true.
Proof.
  unfold Text.decimal. destruct (Z.to_int n) as [d|d]; cbn.
  - destruct d; try reflexivity; apply (uint_ascii (_ d)).
  - destruct d; try reflexivity; apply (uint_ascii (_ d)).
Qed.

(** A piece that is followed by anything but the second half of a pair is
    encoded on its own. *)
Lemma utf8_app_clean_bounded (k : nat) :
  forall a x,
    (List.length a <= k)%nat -> Spec.starts_clean x ->
    Utf16.utf8 (a ++ x) = Utf16.utf8 a ++ Utf16.utf8 x.
Proof.
  induction k as [|k IH]; intros a x L C.
  - destruct a; [reflexivity | cbn in L; lia].
  - destruct a as [|u a]; [reflexivity|].
    cbn [List.length] in L. cbn [app Utf16.utf8].
    destruct (Utf16.is_high u).
    + destruct a as [|v a]; cbn [app].
      * destruct x as [|v x]; [reflexivity|].
        cbn in C. rewrite C. reflexivity.
      * cbn [List.length] in L.
        destruct (Utf16.is_low v).
        -- rewrite (IH a x) by (trivial; lia). now rewrite append_assoc.
        -- change (v :: a ++ x)%list with ((v :: a) ++ x)%list.
           rewrite (IH (v :: a) x) by (trivial; cbn [List.length]; lia).
           now rewrite append_assoc.
    + destruct (Utf16.is_low u); rewrite (IH a x) by (trivial; lia);
        now rewrite append_assoc.
Qed.

Lemma utf8_app_clean (a x : list Z) :
  Spec.starts_clean x -> Utf16.utf8 (a ++ x) = Utf16.utf8 a ++ Utf16.utf8 x.
Proof. apply (utf8_app_clean_bounded (List.length a)). lia. Qed.

Ltac ascii_text := first [reflexivity | apply decimal_ascii].

(** The bytes that are hashed: the text of [sign] above, made of the UTF-8
    bytes of the pieces. *)
Lemma utf8_tobeSigned id m n t u b :
  Utf16.utf8 (Utf16.tobeSigned id m n t u b)
  = tobeSigned (Utf16.utf8 id) (Utf16.utf8 m) n t (Utf16.utf8 u)
      (Utf16.utf8 b).
Proof.
  unfold Utf16.tobeSigned, tobeSigned.
  rewrite utf8_app_clean by exact eq_refl.
  rewrite (utf8_app_clean m) by exact eq_refl.
  rewrite !utf8_units_app by ascii_text.
  rewrite (utf8_app_clean id) by exact eq_refl.
  rewrite !utf8_units_app by ascii_text.
  rewrite utf8_units by ascii_text.
  rewrite (utf8_app_clean u) by exact eq_refl.
  rewrite utf8_units_app by ascii_text.
  reflexivity.
Qed.

Lemma sign_utf8 id key m n t u b :
  Utf16.sign id key m n t u b
  = sign (Utf16.utf8 id) (Utf16.utf8 key) (Utf16.utf8 m) n t (Utf16.utf8 u)
      (Utf16.utf8 b).
Proof. unfold Utf16.sign, sign. now rewrite utf8_tobeSigned. Qed.

Ltac euclid := Z.to_euclidean_division_equations; lia.

Ltac decode_bytes :=
  unfold Text.string_of_bytes;
  cbn [map string_of_list_ascii append Spec.utf16_of_utf8];
  rewrite !byte_code by euclid.

Lemma utf16_of_encode_point (p : Z) (rest : string) :
  0 <= p < 65536 ->
  Spec.utf16_of_utf8 (Utf16.encode_point p ++ rest)
  = p :: Spec.utf16_of_utf8 rest.
Proof.
  intros R. unfold Utf16.encode_point.
  destruct (Z.ltb_spec p 128) as [A|A]; [|destruct (Z.ltb_spec p 2048) as [B|B];
    [|destruct (Z.ltb_spec p 65536) as [C|C]; [|lia]]]; decode_bytes.
  - destruct (Z.ltb_spec p 128); [reflexivity | lia].
  - destruct (Z.ltb_spec (192 + p / 64) 128); [euclid|].
    destruct (Z.ltb_spec (192 + p / 64) 224); [|euclid].
    f_equal. euclid.
  - destruct (Z.ltb_spec (224 + p / 4096) 128); [euclid|].
    destruct (Z.ltb_spec (224 + p / 4096) 224); [euclid|].
    destruct (Z.ltb_spec (224 + p / 4096) 240); [|euclid].
    f_equal. euclid.
Qed.

Lemma utf16_of_encode_pair (high low : Z) (rest : string) :
  Utf16.is_high high = true -> Utf16.is_low low = true ->
  Spec.utf16_of_utf8 (Utf16.encode_point (Utf16.pair_point high low) ++ rest)
  = high :: low :: Spec.utf16_of_utf8 rest.
Proof.
  unfold Utf16.is_high, Utf16.is_low. intros H L.
  apply andb_true_iff in H as [H1 H2]. apply andb_true_iff in L as [L1 L2].
  apply Z.leb_le in H1, H2, L1, L2.
  assert (P : 65536 <= Utf16.pair_point high low < 1114112)
    by (unfold Utf16.pair_point; lia).
  unfold Utf16.encode_point.
  destruct (Z.ltb_spec (Utf16.pair_point high low) 128); [lia|].
  destruct (Z.ltb_spec (Utf16.pair_point high low) 2048); [lia|].
  destruct (Z.ltb_spec (Utf16.pair_point high low) 65536); [lia|].
  remember (Utf16.pair_point high low) as p eqn:E. decode_bytes.
  destruct (Z.ltb_spec (240 + p / 262144) 128); [euclid|].
  destruct (Z.ltb_spec (240 + p / 262144) 224); [euclid|].
  destruct (Z.ltb_spec (240 + p / 262144) 240); [euclid|].
  unfold Utf16.pair_point in E.
  f_equal; [|f_equal]; euclid.
Qed.

Lemma utf16_of_utf8_bounded (k : nat) :
  forall s,
    (List.length s <= k)%nat -> Utf16.well_formed s = true ->
    Spec.utf16_of_utf8 (Utf16.utf8 s) = s.
Proof.
  induction k as [|k IH]; intros s L W.
  - destruct s; [reflexivity | cbn in L; lia].
  - destruct s as [|u s]; [reflexivity|].
    cbn [List.length] in L. cbn [Utf16.utf8 Utf16.well_formed] in *.
    destruct (Utf16.is_high u) eqn:H.
    + destruct s as [|v s]; [discriminate|]. cbn [List.length] in L.
      apply andb_true_iff in W as [V W]. rewrite V.
      rewrite utf16_of_encode_pair by assumption.
      now rewrite IH by (trivial; lia).
    + apply andb_true_iff in W as [W W3]. apply andb_true_iff in W as [W W2].
      apply andb_true_iff in W as [W0 W1].
      apply negb_true_iff in W2. rewrite W2.
      apply Z.leb_le in W0. apply Z.ltb_lt in W1.
      rewrite utf16_of_encode_point by lia.
      now rewrite IH by (trivial; lia).
Qed.

(** Well-formed text can be read back from its UTF-8 bytes. *)
Lemma utf16_of_utf8_utf8 (s : list Z) :
  Utf16.well_formed s = true -> Spec.utf16_of_utf8 (Utf16.utf8 s) = s.
Proof. apply (utf16_of_utf8_bounded (List.length s)). lia. Qed.

Lemma sign_of_keyed_hash id key m n t u b :
  Utf16.sign id key m n t u b
  = Text.base64
      (Text.bytes_of_string
         (Text.hex (Spec.keyed_hash key (Utf16.tobeSigned id m n t u b)))).
Proof. reflexivity. Qed.

Lemma hash_of_signature_utf16 id key m n t u b :
  Spec.hash_of_signature (Utf16.sign id key m n t u b)
  = Spec.keyed_hash key (Utf16.tobeSigned id m n t u b).
Proof.
  rewrite sign_utf8, hash_of_signature_sign. unfold Spec.keyed_hash.
  now rewrite utf8_tobeSigned.
Qed.

(** C5, as stated, fails: the path of [getMeeting] for a meeting id that
    is the first half of an emoji and the path for one that is the first
    half of another are different strings, and with everything else equal
    they are signed alike.  [update] hashes the UTF-8 bytes of the text,
    and a surrogate without its partner is written as U+FFFD. *)
Lemma sign_same_for_two_paths :
  Scenario.meeting_path 55357 <> Scenario.meeting_path 55358
  /\ Utf16.sign (Utf16.units "id") (Utf16.units "key") (Utf16.units "GET")
       7 1700000000 (Scenario.meeting_path 55357) []
     = "MzdlOGU1NzQyMGExNmRjNmI3OGE5YmUwZWFkNGNlNWZhNTk0MTJmNTA4MTY3YjY4MTQ4ZDE0OTNhOTgwNzM2OA=="
  /\ Utf16.sign (Utf16.units "id") (Utf16.units "key") (Utf16.units "GET")
       7 1700000000 (Scenario.meeting_path 55358) []
     = "MzdlOGU1NzQyMGExNmRjNmI3OGE5YmUwZWFkNGNlNWZhNTk0MTJmNTA4MTY3YjY4MTQ4ZDE0OTNhOTgwNzM2OA==".
Proof.
  split; [|split].
  - intros E. apply (f_equal (fun l => nth 13 l 0)) in E. discriminate E.
  - vm_compute. reflexivity.
  - vm_compute. reflexivity.
Qed.

(** C5, amended: [sign] is a function of its inputs.  The keyed hash
    (HMAC-SHA256, keyed by the secret key, of the UTF-8 bytes of the signed
    text) can be read back from the signature, so two signatures are equal
    exactly when the two keyed hashes are.  Changing exactly one of
    method, nonce, timestamp, path or body changes the bytes that are
    hashed exactly when the UTF-8 bytes of that input change, which they do
    for any two different integers and any two different well-formed
    strings; the signature then changes unless the keyed hash maps both
    texts to one value. *)
Theorem sign_changes_exactly_with_keyed_hash :
  forall id key m n t u b,
    (forall m' n' t' u' b',
        m' = m -> n' = n -> t' = t -> u' = u -> b' = b ->
        Utf16.sign id key m' n' t' u' b' = Utf16.sign id key m n t u b)
    /\ Spec.hash_of_signature (Utf16.sign id key m n t u b)
       = Spec.keyed_hash key (Utf16.tobeSigned id m n t u b)
    /\ (forall m' n' t' u' b',
          Utf16.sign id key m' n' t' u' b' = Utf16.sign id key m n t u b
          <-> Spec.keyed_hash key (Utf16.tobeSigned id m' n' t' u' b')
              = Spec.keyed_hash key (Utf16.tobeSigned id m n t u b))
    /\ (forall m',
          Utf16.utf8 (Utf16.tobeSigned id m' n t u b)
          = Utf16.utf8 (Utf16.tobeSigned id m n t u b)
          <-> Utf16.utf8 m' = Utf16.utf8 m)
    /\ (forall n',
          Utf16.utf8 (Utf16.tobeSigned id m n' t u b)
          = Utf16.utf8 (Utf16.tobeSigned id m n t u b)
          <-> n' = n)
    /\ (forall t',
          Utf16.utf8 (Utf16.tobeSigned id m n t' u b)
          = Utf16.utf8 (Utf16.tobeSigned id m n t u b)
          <-> t' = t)
    /\ (forall u',
          Utf16.utf8 (Utf16.tobeSigned id m n t u' b)
          = Utf16.utf8 (Utf16.tobeSigned id m n t u b)
          <-> Utf16.utf8 u' = Utf16.utf8 u)
    /\ (forall b',
          Utf16.utf8 (Utf16.tobeSigned id m n t u b')
          = Utf16.utf8 (Utf16.tobeSigned id m n t u b)
          <-> Utf16.utf8 b' = Utf16.utf8 b)
    /\ (forall s s',
          Utf16.well_formed s = true -> Utf16.well_formed s' = true ->
          Utf16.utf8 s = Utf16.utf8 s' -> s = s').
Proof.
  intros id key m n t u b.
  split; [intros; now subst|].
  split; [apply hash_of_signature_utf16|].
  split.
  { intros m' n' t' u' b'. split; intros E.
    - rewrite <- !hash_of_signature_utf16. now rewrite E.
    - rewrite !sign_of_keyed_hash. now rewrite E. }
  repeat split; try (intros E; rewrite !utf8_tobeSigned; now rewrite E);
    try (intros E; now subst).
  - rewrite !utf8_tobeSigned. intros E.
    now apply tobeSigned_method_inj in E.
  - rewrite !utf8_tobeSigned. intros E.
    now apply tobeSigned_nonce_inj in E.
  - rewrite !utf8_tobeSigned. intros E.
    now apply tobeSigned_timestamp_inj in E.
  - rewrite !utf8_tobeSigned. intros E.
    now apply tobeSigned_uri_inj in E.
  - rewrite !utf8_tobeSigned. intros E.
    now apply tobeSigned_body_inj in E.
  - intros s s' W W' E.
    rewrite <- (utf16_of_utf8_utf8 s W), <- (utf16_of_utf8_utf8 s' W').
    now rewrite E.
Qed.

End SignatureSensitivity.
